(** * Congruence::KBFP: Knuth-Bendix followed by Froidure-Pin

    A shallow embedding of [src/cong/kbfp.cc].  The class KBFP drives two
    collaborators that live in other files of the library: the rewriting
    system [RWS] and the enumeration of the quotient, [Semigroup].  They are
    interfaces here (type classes); the methods of kbfp.cc are written over
    them in a state-and-abort monad whose state is the KBFP object, the heap
    cells holding the [Element]s that kbfp.cc allocates with [new], the data
    of elements lost by a [delete] without [really_delete], and the sequence
    of mutating calls made on the collaborators. *)

From Stdlib Require Import NArith.
From stdpp Require Import base option list gmap strings.

Open Scope N_scope.

(** ** Words, sizes and the three-valued result *)

Definition letter_t := N.
Definition word_t := list letter_t.
Definition relation_t := (word_t * word_t)%type.

(** [size_t] is 64 bits wide; [+] wraps around. *)
Definition size_t_modulus : N := 2 ^ 64.
Definition size_t_add (a b : N) : N := (a + b) mod size_t_modulus.

(** Congruence::DATA::result_t *)
Inductive result_t := TRUE | FALSE | UNKNOWN.

#[global] Instance result_t_eq_dec : EqDecision result_t.
Proof. solve_decision. Defined.

(** ** The collaborators of KBFP, as interfaces

    [_killed] is a [std::atomic<bool>] that the owner of the KBFP object
    raises from another thread.  The three calls that receive it by
    reference poll it while they run; each takes its value on entry and
    gives back, next to the new state of the collaborator, its value when the
    call returns. *)

(** The parts of [Congruence] that kbfp.cc reads or calls on [_cong]. *)
Class Presentation (Cong : Type) := {
  (* _cong.init_relations(_cong._semigroup, _killed) *)
  init_relations : Cong → bool → Cong * bool;
  relations : Cong → list relation_t;
  extra : Cong → list relation_t;
  _nrgens : Cong → N;
  (* _cong._semigroup != nullptr *)
  has_parent_semigroup : Cong → bool;
  (* Congruence::LIMIT_MAX *)
  LIMIT_MAX : N
}.

(** The condition asserted on line 52:
    [_cong._semigroup == nullptr || !_cong.extra().empty()]. *)
Definition presentation_ok `{Presentation Cong} (c : Cong) : bool :=
  negb (has_parent_semigroup c) || negb (bool_decide (extra c = [])).

(** The methods of [RWS] that kbfp.cc calls on [_rws]. *)
Class RewritingSystem (RWS rws_word_t : Type) := {
  rws_word_eq_dec :: EqDecision rws_word_t;
  add_rules : RWS → list relation_t → RWS;
  knuth_bendix : RWS → bool → RWS * bool;
  is_confluent : RWS → bool;
  word_to_rws_word : word_t → rws_word_t;
  rewrite : RWS → rws_word_t → rws_word_t;
  test_less_than : RWS → rws_word_t → rws_word_t → bool
}.

(** The methods of [Semigroup] that kbfp.cc calls on [_semigroup], over the
    elements it is built from.  [fully_closed] is the collaborator's own
    "nothing left to enumerate". *)
Class Enumeration (Semigroup Element : Type) := {
  new_Semigroup : list Element → Semigroup;
  set_batch_size : Semigroup → N → Semigroup;
  enumerate : Semigroup → bool → N → Semigroup * bool;
  current_size : Semigroup → N;
  position : Semigroup → Element → N;
  fully_closed : Semigroup → bool;
  (* Semigroup::UNDEFINED *)
  UNDEFINED : N
}.

(** ** The state *)

(** A mutating call made on a collaborator, or a line given to REPORT. *)
Inductive Call :=
| Call_init_relations
| Call_add_rules (rules : list relation_t)
| Call_knuth_bendix
| Call_new_Semigroup (nrgens : nat)
| Call_set_batch_size (steps : N)
| Call_enumerate (limit : N)
| Call_REPORT (msg : string).

#[global] Instance Call_eq_dec : EqDecision Call.
Proof. solve_decision. Defined.

(** Why a call is aborted: a failed [assert] (with its line in kbfp.cc), or a
    pointer that is null, dangling or deleted twice. *)
Inductive Fault :=
| AssertionFailed (line : N)
| InvalidPointer.

Definition addr := N.

Section KBFP.

Context {Cong RWS rws_word_t Semigroup : Type}.
Context `{!Presentation Cong, !RewritingSystem RWS rws_word_t}.

(** Modelled from the spec: rwse.h, with the class RWSE, is not under src/.
    §3 has a CanonicalElement as "a word already in normal form plus a
    non-owning reference to the RewritingEngine that produced it", with
    "equality defined structurally by normal-form equality"; §4.3 has
    class_index "canonicalize" its word and init() wrap each generator as
    such an element. *)
Record RWSE := mkRWSE { rwse_rws : RWS; rwse_word : rws_word_t }.

Definition Element : Type := RWSE.

Definition RWSE_of_word (rws : RWS) (w : word_t) : Element :=
  mkRWSE rws (rewrite rws (word_to_rws_word w)).

Definition RWSE_of_letter (rws : RWS) (a : letter_t) : Element :=
  RWSE_of_word rws [a].

Context `{!Enumeration Semigroup Element}.

(** A heap cell for an [Element*]: [really_delete] frees the data of the
    element, [delete] the cell itself. *)
Record Cell := mkCell { cell_elt : Element; cell_data_live : bool }.

(** [leaked] holds the data of the elements that were deleted without
    [really_delete]: the destructor of an element leaves its data alone, so
    that after [delete] nothing points to it any more. *)
Record KBFP := mkKBFP {
  _cong : Cong;
  _rws : RWS;
  _semigroup : option Semigroup;
  _killed : bool;
  heap : gmap addr Cell;
  leaked : list Element;
  trace : list Call
}.

Definition set_cong (c : Cong) (s : KBFP) : KBFP :=
  mkKBFP c (_rws s) (_semigroup s) (_killed s) (heap s) (leaked s) (trace s).
Definition set_rws (r : RWS) (s : KBFP) : KBFP :=
  mkKBFP (_cong s) r (_semigroup s) (_killed s) (heap s) (leaked s) (trace s).
Definition set_semigroup (sg : option Semigroup) (s : KBFP) : KBFP :=
  mkKBFP (_cong s) (_rws s) sg (_killed s) (heap s) (leaked s) (trace s).
Definition set_killed (k : bool) (s : KBFP) : KBFP :=
  mkKBFP (_cong s) (_rws s) (_semigroup s) k (heap s) (leaked s) (trace s).
Definition set_heap (h : gmap addr Cell) (s : KBFP) : KBFP :=
  mkKBFP (_cong s) (_rws s) (_semigroup s) (_killed s) h (leaked s) (trace s).
Definition set_leaked (l : list Element) (s : KBFP) : KBFP :=
  mkKBFP (_cong s) (_rws s) (_semigroup s) (_killed s) (heap s) l (trace s).
Definition log (c : Call) (s : KBFP) : KBFP :=
  mkKBFP (_cong s) (_rws s) (_semigroup s) (_killed s) (heap s) (leaked s)
         (trace s ++ [c]).

(** ** The monad: state, and abort on a fault *)

Inductive Outcome (A : Type) :=
| Ok (a : A) (s : KBFP)
| Abort (f : Fault).
Arguments Ok {A} a s.
Arguments Abort {A} f.

Definition M (A : Type) : Type := KBFP → Outcome A.

#[export] Instance M_ret : MRet M := fun A a s => Ok a s.

#[export] Instance M_bind : MBind M := fun A B f m s =>
  match m s with
  | Ok a s' => f a s'
  | Abort e => Abort e
  end.

Definition get : M KBFP := fun s => Ok s s.
Definition modify (f : KBFP → KBFP) : M unit := fun s => Ok tt (f s).
Definition abort {A} (e : Fault) : M A := fun _ => Abort e.

Definition assert (b : bool) (line : N) : M unit :=
  if b then mret tt else abort (AssertionFailed line).

Definition REPORT (msg : string) : M unit := modify (log (Call_REPORT msg)).

(** ** Elements on the heap *)

(** [new RWSE(...)]: a cell at an address that is not in use. *)
Definition new_RWSE (e : Element) : M addr :=
  fun s => let x := fresh (dom (heap s)) in
           Ok x (set_heap (<[x := mkCell e true]> (heap s)) s).

(** [*x], for an element whose data has not been freed. *)
Definition deref (x : addr) : M Element :=
  fun s => match heap s !! x with
           | Some (mkCell e true) => Ok e s
           | _ => Abort InvalidPointer
           end.

(** [x->really_delete()] *)
Definition really_delete (x : addr) : M unit :=
  fun s => match heap s !! x with
           | Some (mkCell e true) =>
               Ok tt (set_heap (<[x := mkCell e false]> (heap s)) s)
           | _ => Abort InvalidPointer
           end.

(** [delete x]: the cell is given back; data that [really_delete] has not
    freed is lost. *)
Definition delete_ptr (x : addr) : M unit :=
  fun s => match heap s !! x with
           | Some (mkCell e live) =>
               Ok tt (set_leaked (if live then leaked s ++ [e] else leaked s)
                                 (set_heap (delete x (heap s)) s))
           | None => Abort InvalidPointer
           end.

Fixpoint really_delete_cont (cont : list addr) : M unit :=
  match cont with
  | [] => mret tt
  | x :: cont' =>
      really_delete x ;;
      delete_ptr x ;;
      really_delete_cont cont'
  end.

(** ** Calls on the collaborators *)

(** [_cong.init_relations(_cong._semigroup, _killed)] *)
Definition cong_init_relations : M unit :=
  fun s => let '(c, k) := init_relations (_cong s) (_killed s) in
           Ok tt (log Call_init_relations (set_killed k (set_cong c s))).

(** [_rws->add_rules(rules)] *)
Definition rws_add_rules (rules : list relation_t) : M unit :=
  fun s => Ok tt (log (Call_add_rules rules)
                      (set_rws (add_rules (_rws s) rules) s)).

(** [_rws->knuth_bendix(_killed)] *)
Definition rws_knuth_bendix : M unit :=
  fun s => let '(r, k) := knuth_bendix (_rws s) (_killed s) in
           Ok tt (log Call_knuth_bendix (set_killed k (set_rws r s))).

(** [_semigroup->], which needs a pointer that is not null. *)
Definition the_semigroup : M Semigroup :=
  fun s => match _semigroup s with
           | Some sg => Ok sg s
           | None => Abort InvalidPointer
           end.

(** [_semigroup->set_batch_size(steps)] *)
Definition semigroup_set_batch_size (steps : N) : M unit :=
  sg ← the_semigroup;
  modify (fun s => log (Call_set_batch_size steps)
                       (set_semigroup (Some (set_batch_size sg steps)) s)).

(** [_semigroup->enumerate(_killed, limit)] *)
Definition semigroup_enumerate (limit : N) : M unit :=
  sg ← the_semigroup;
  modify (fun s => let '(sg', k) := enumerate sg (_killed s) limit in
                   log (Call_enumerate limit)
                       (set_killed k (set_semigroup (Some sg') s))).

(** ** The methods of kbfp.cc *)

(** Modelled from the spec: [is_done()] is defined in kbfp.h, which is not
    under src/.  §4.3: "true iff the EnumerationIndex has closed the full
    quotient and the instance was not cancelled".  Line 88 of kbfp.cc relies
    on it for [_semigroup != nullptr]. *)
Definition is_done (s : KBFP) : bool :=
  match _semigroup s with
  | Some sg => fully_closed sg && negb (_killed s)
  | None => false
  end.

(** Modelled from the spec: [is_killed()] is a method of Congruence::DATA
    (cong.h, not under src/).  §6 lists it as is_cancelled(), the reading of
    the CancellationSignal of §3, which is the [_killed] that kbfp.cc reads
    directly on lines 39, 56, 75 and 81. *)
Definition is_killed (s : KBFP) : bool := _killed s.

(** Modelled from the spec: no line of kbfp.cc writes [_killed].  §5 has the
    scheduler flip the signal from outside, between or during the calls. *)
Definition kill (s : KBFP) : KBFP := set_killed true s.

(** The loop of lines 63-65: [gens.push_back(new RWSE( *_rws, i))] for [i]
    from [i] on, [n] times. *)
Fixpoint push_back_gens (n : nat) (i : letter_t) (gens : list addr)
  : M (list addr) :=
  match n with
  | O => mret gens
  | S n' =>
      s ← get;
      x ← new_RWSE (RWSE_of_letter (_rws s) i);
      push_back_gens n' (size_t_add i 1) (gens ++ [x])
  end.

(** [new Semigroup(gens)] reads the elements that [gens] points to. *)
Definition semigroup_new (gens : list addr) : M unit :=
  elts ← mapM deref gens;
  modify (fun s => log (Call_new_Semigroup (length gens))
                       (set_semigroup (Some (new_Semigroup elts)) s)).

(** Lines 44-68. *)
Definition init : M unit :=
  s ← get;
  if bool_decide (is_Some (_semigroup s)) then mret tt
  else
    cong_init_relations;;
    s ← get; rws_add_rules (relations (_cong s));;
    s ← get; rws_add_rules (extra (_cong s));;
    s ← get;
    assert (presentation_ok (_cong s)) 52;;
    REPORT "running Knuth-Bendix . . .";;
    rws_knuth_bendix;;
    s ← get;
    if _killed s then REPORT "killed"
    else
      assert (is_confluent (_rws s)) 61;;
      gens ← push_back_gens (N.to_nat (_nrgens (_cong s))) 0 [];
      semigroup_new gens;;
      really_delete_cont gens.

(** The three exits of [init] past line 47, as states.  Lines 48-50 feed
    the rewriting system; lines 54-55 run completion; lines 62-67 build the
    semigroup from one element for each generator. *)
Definition fed (s : KBFP) : KBFP :=
  let c := (init_relations (_cong s) (_killed s)).1 in
  mkKBFP c (add_rules (add_rules (_rws s) (relations c)) (extra c))
         (_semigroup s) (init_relations (_cong s) (_killed s)).2 (heap s)
         (leaked s)
         (trace s ++ [Call_init_relations; Call_add_rules (relations c);
                      Call_add_rules (extra c)]).

Definition completed (s : KBFP) : KBFP :=
  mkKBFP (_cong s) (knuth_bendix (_rws s) (_killed s)).1 (_semigroup s)
         (knuth_bendix (_rws s) (_killed s)).2 (heap s) (leaked s)
         (trace s ++ [Call_REPORT "running Knuth-Bendix . . .";
                      Call_knuth_bendix]).

Fixpoint letters_from (n : nat) (i : letter_t) : list letter_t :=
  match n with
  | O => []
  | S n' => i :: letters_from n' (size_t_add i 1)
  end.

Definition generators (s : KBFP) : list Element :=
  RWSE_of_letter (_rws s) <$> letters_from (N.to_nat (_nrgens (_cong s))) 0.

Definition ready (s : KBFP) : KBFP :=
  log (Call_new_Semigroup (N.to_nat (_nrgens (_cong s))))
      (set_semigroup (Some (new_Semigroup (generators s))) s).

Definition delete_all (xs : list addr) (h : gmap addr Cell) : gmap addr Cell :=
  foldl (λ h x, delete x h) h xs.

(** Lines 70-84. *)
Definition run_steps (steps : N) : M unit :=
  s ← get; assert (negb (is_done s)) 71;;
  init;;
  s ← get;
  (if negb (_killed s) then
     REPORT "running Froidure-Pin . . .";;
     semigroup_set_batch_size steps;;
     sg ← the_semigroup;
     semigroup_enumerate (size_t_add (current_size sg) 1)
   else mret tt);;
  s ← get;
  if _killed s then REPORT "killed" else mret tt.

(** Lines 38-42.  The loop need not end: [run n] gives [None] when more
    than [n] tests of the loop condition are needed. *)
Fixpoint run (fuel : nat) (s : KBFP) : option (Outcome unit) :=
  match fuel with
  | O => None
  | S fuel' =>
      if negb (_killed s) && negb (is_done s) then
        match run_steps LIMIT_MAX s with
        | Ok _ s' => run fuel' s'
        | Abort e => Some (Abort e)
        end
      else Some (Ok tt s)
  end.

(** Lines 86-96. *)
Definition word_to_class_index (word : word_t) : M N :=
  s ← get; assert (is_done s) 88;;
  x ← new_RWSE (RWSE_of_word (_rws s) word);
  sg ← the_semigroup;
  e ← deref x;
  let pos := position sg e in
  really_delete x;;
  delete_ptr x;;
  assert (negb (bool_decide (pos = UNDEFINED))) 94;;
  mret pos.

(** Lines 98-109. *)
Definition current_equals (w1 w2 : word_t) : M result_t :=
  init;;
  s ← get;
  if is_killed s then mret UNKNOWN
  else
    assert (is_confluent (_rws s)) 104;;
    mret (if bool_decide (rewrite (_rws s) (word_to_rws_word w1)
                          = rewrite (_rws s) (word_to_rws_word w2))
          then TRUE else FALSE).

(** Lines 111-119. *)
Definition current_less_than (w1 w2 : word_t) : M result_t :=
  init;;
  s ← get;
  assert (is_confluent (_rws s)) 114;;
  mret (if test_less_than (_rws s) (word_to_rws_word w1)
                          (word_to_rws_word w2)
        then TRUE else FALSE).

(** The state that lines 76-83 lead to from [s], where [init] has left the
    semigroup [sg] and the signal down. *)
Definition enumerated (steps : N) (sg : Semigroup) (s : KBFP) : KBFP :=
  let sg1 := set_batch_size sg steps in
  let limit := size_t_add (current_size sg1) 1 in
  let s' := mkKBFP (_cong s) (_rws s) (Some (enumerate sg1 false limit).1)
                   (enumerate sg1 false limit).2 (heap s) (leaked s)
                   (trace s ++ [Call_REPORT "running Froidure-Pin . . .";
                                Call_set_batch_size steps;
                                Call_enumerate limit]) in
  if _killed s' then log (Call_REPORT "killed") s' else s'.

(** A cancelled object on which [init] has built nothing. *)
Definition cancelled_unready (s : KBFP) : Prop :=
  _killed s = true ∧ _semigroup s = None ∧ presentation_ok (_cong s) = true.

(** The semigroup is only ever built from a confluent rewriting system. *)
Definition well_formed (s : KBFP) : bool :=
  match _semigroup s with
  | Some _ => is_confluent (_rws s)
  | None => true
  end.

(** [run()] in the words of §4.3: "repeatedly calls run with the largest
    practical step budget until is_done() or cancellation". *)
Inductive run_until_done_or_cancelled : KBFP → Outcome unit → Prop :=
| run_stop s :
    _killed s = true ∨ is_done s = true →
    run_until_done_or_cancelled s (Ok tt s)
| run_again s s' o :
    _killed s = false → is_done s = false →
    run_steps LIMIT_MAX s = Ok tt s' →
    run_until_done_or_cancelled s' o →
    run_until_done_or_cancelled s o
| run_abort s e :
    _killed s = false → is_done s = false →
    run_steps LIMIT_MAX s = Abort e →
    run_until_done_or_cancelled s (Abort e).

(** A sequence of [equals] queries, one after the other. *)
Definition equals_each (queries : list (word_t * word_t)) : M (list result_t) :=
  mapM (λ q, current_equals q.1 q.2) queries.

End KBFP.

Arguments Ok {_ _ _ _ _} a s.
Arguments Abort {_ _ _ _ _} f.
Arguments KBFP : clear implicits.
Arguments RWSE : clear implicits.

(** ** What the collaborators promise

    The contracts of the collaborators that kbfp.cc relies on (§4.1, §4.2 and
    §6 of the specification), each stated over the interface. *)

(** Materialising the relations keeps a presentation that passes the
    assertion of line 52 that way. *)
Class PresentationLaws (Cong : Type) `{!Presentation Cong} : Prop := {
  init_relations_ok c k :
    presentation_ok c = true → presentation_ok (init_relations c k).1 = true
}.

(** Nothing lowers the signal once it is raised. *)
Class SignalLaws (Cong RWS rws_word_t : Type)
  `{!Presentation Cong, !RewritingSystem RWS rws_word_t} : Prop := {
  init_relations_killed (c : Cong) : (init_relations c true).2 = true;
  knuth_bendix_killed (r : RWS) : (knuth_bendix r true).2 = true
}.

(** §4.2: the batch size only paces; [enumerate] stops at the limit, at
    closure or at a raised signal; an index stands for one normal form. *)
Class EnumerationLaws (Semigroup RWS rws_word_t : Type)
  `{!Enumeration Semigroup (RWSE RWS rws_word_t)} : Prop := {
  current_size_set_batch_size (sg : Semigroup) n :
    current_size (set_batch_size sg n) = current_size sg;
  enumerate_limit (sg : Semigroup) k limit :
    (enumerate sg k limit).2 = false →
    limit ≤ current_size (enumerate sg k limit).1
    ∨ fully_closed (enumerate sg k limit).1 = true;
  position_inj (sg : Semigroup) (x y : RWSE RWS rws_word_t) :
    position sg x = position sg y → position sg x ≠ UNDEFINED →
    rwse_word x = rwse_word y
}.

(** ** A small instance of the collaborators

    A string rewriting system that keeps its rules oriented by shortlex and is
    complete as soon as its rules are added (as is the case for the
    presentation below), and an enumeration that closes its generators under
    right multiplication, one new element at a time. *)
Module Toy.

Record Cong := mkCong {
  cong_nrgens : N;
  cong_relations : list relation_t;
  cong_extra : list relation_t
}.

#[global] Instance presentation : Presentation Cong := {|
  init_relations c k := (c, k);
  relations := cong_relations;
  extra := cong_extra;
  _nrgens := cong_nrgens;
  has_parent_semigroup _ := false;
  LIMIT_MAX := 2 ^ 64 - 1
|}.

(** [kb_interrupted]: the owner raises the signal while completion runs. *)
Record RWS := mkRWS {
  rules : list relation_t;
  confluent : bool;
  kb_interrupted : bool
}.

Fixpoint lex_lt (u v : word_t) : bool :=
  match u, v with
  | _, [] => false
  | [], _ :: _ => true
  | a :: u', b :: v' => (a <? b) || ((a =? b) && lex_lt u' v')
  end.

Definition shortlex_lt (u v : word_t) : bool :=
  (length u <? length v)%nat
  || ((length u =? length v)%nat && lex_lt u v).

Definition orient (r : relation_t) : relation_t :=
  if shortlex_lt r.1 r.2 then (r.2, r.1) else r.

Fixpoint strip_prefix (p w : word_t) : option word_t :=
  match p, w with
  | [], _ => Some w
  | _ :: _, [] => None
  | a :: p', b :: w' => if a =? b then strip_prefix p' w' else None
  end.

Fixpoint apply_at_head (rs : list relation_t) (w : word_t) : option word_t :=
  match rs with
  | [] => None
  | (l, r) :: rs' =>
      match strip_prefix l w with
      | Some rest => Some (r ++ rest)
      | None => apply_at_head rs' w
      end
  end.

Fixpoint rewrite_once (rs : list relation_t) (w : word_t) : option word_t :=
  match apply_at_head rs w with
  | Some w' => Some w'
  | None =>
      match w with
      | [] => None
      | a :: w' => (a ::.) <$> rewrite_once rs w'
      end
  end.

Fixpoint rewrite_fuel (n : nat) (rs : list relation_t) (w : word_t) : word_t :=
  match n with
  | O => w
  | S n' =>
      match rewrite_once rs w with
      | Some w' => rewrite_fuel n' rs w'
      | None => w
      end
  end.

#[global] Instance rewriting_system : RewritingSystem RWS word_t := {|
  add_rules r rs := mkRWS (rules r ++ (orient <$> rs)) (confluent r)
                          (kb_interrupted r);
  knuth_bendix r k :=
    if k || kb_interrupted r then (r, true)
    else (mkRWS (rules r) true false, false);
  is_confluent := confluent;
  word_to_rws_word w := w;
  rewrite r w := rewrite_fuel (length w * length w + length w) (rules r) w;
  test_less_than r u v :=
    shortlex_lt (rewrite_fuel (length u * length u + length u) (rules r) u)
                (rewrite_fuel (length v * length v + length v) (rules r) v)
|}.

Definition Elt : Type := RWSE RWS word_t.

Record Semigroup := mkSemigroup {
  gens : list Elt;
  elems : list Elt;
  batch_size : N;
  closed : bool
}.

Definition same_word (x y : Elt) : bool :=
  bool_decide (rwse_word x = rwse_word y).

Definition known (sg : Semigroup) (x : Elt) : bool :=
  existsb (same_word x) (elems sg).

Definition mul (x y : Elt) : Elt :=
  mkRWSE (rwse_rws x)
         (rewrite (rwse_rws x) (rwse_word x ++ rwse_word y)).

Definition products (sg : Semigroup) : list Elt :=
  x ← elems sg; mul x <$> gens sg.

Definition grow_one (sg : Semigroup) : Semigroup :=
  match filter (λ y, known sg y = false) (products sg) with
  | y :: _ => mkSemigroup (gens sg) (elems sg ++ [y]) (batch_size sg) false
  | [] => mkSemigroup (gens sg) (elems sg) (batch_size sg) true
  end.

Definition size (sg : Semigroup) : N := N.of_nat (length (elems sg)).

Fixpoint grow (n : nat) (limit : N) (sg : Semigroup) : Semigroup :=
  match n with
  | O => sg
  | S n' =>
      if closed sg || (limit <=? size sg) then sg
      else grow n' limit (grow_one sg)
  end.

Fixpoint dedup_words (l : list Elt) (acc : list Elt) : list Elt :=
  match l with
  | [] => acc
  | x :: l' =>
      dedup_words l' (if existsb (same_word x) acc then acc else acc ++ [x])
  end.

Definition index_of (sg : Semigroup) (x : Elt) : option nat :=
  fst <$> list_find (λ y, same_word x y = true) (elems sg).

#[global] Instance enumeration : Enumeration Semigroup Elt := {|
  new_Semigroup g := mkSemigroup g (dedup_words g []) 8192 false;
  set_batch_size sg n := mkSemigroup (gens sg) (elems sg) n (closed sg);
  enumerate sg k limit :=
    if k then (sg, k)
    else (grow (N.to_nat (limit - size sg)) limit sg, k);
  current_size := size;
  position sg x := from_option N.of_nat (2 ^ 64 - 1) (index_of sg x);
  fully_closed := closed;
  UNDEFINED := 2 ^ 64 - 1
|}.

(** Generators a = 0 and b = 1; relations aa = a and bb = b; the extra pair
    ab = ba.  The quotient has the three elements a, b and ab. *)
Definition cong : Cong :=
  mkCong 2 [([0; 0], [0]); ([1; 1], [1])] [([0; 1], [1; 0])].

Abbreviation State := (KBFP Cong RWS word_t Semigroup).

(** A new KBFP object, as its constructor leaves it: an empty rewriting
    system and no semigroup. *)
Definition fresh_state (interrupted : bool) : State :=
  mkKBFP cong (mkRWS [] false interrupted) None false ∅ [] [].

Definition state_of (o : Outcome (Cong := Cong) (Semigroup := Semigroup)
                             (RWS := RWS) (rws_word_t := word_t) unit)
  : State :=
  match o with
  | Ok _ s => s
  | Abort _ => fresh_state false
  end.

(** After [init] with the signal down: a confluent system, the semigroup
    with its two generators. *)
Definition ready_state : State :=
  Eval vm_compute in state_of (init (fresh_state false)).

(** After [run()]: the three elements, fully closed. *)
Definition done_state : State :=
  Eval vm_compute in
    match run 5 (fresh_state false) with
    | Some o => state_of o
    | None => fresh_state false
    end.

(** After one and after two calls of [init] on an object whose owner raises
    the signal during completion. *)
Definition cancelled_once : State :=
  Eval vm_compute in state_of (init (fresh_state true)).

Definition cancelled_twice : State :=
  Eval vm_compute in state_of (init cancelled_once).

(** [ready_state] with the two generator elements allocated, as after the
    loop of lines 63-65, and the addresses of the two cells. *)
Definition two_cells : list addr * State :=
  Eval vm_compute in
    match push_back_gens 2 0 [] ready_state with
    | Ok xs s => (xs, s)
    | Abort _ => ([], ready_state)
    end.

End Toy.

(** ** The same instance under a presentation with a parent semigroup

    [Toy] has no parent semigroup, so that the test of line 52 always passes
    there.  Here the presentation records whether it has one. *)
Module WithParent.

Record Cong := mkCong {
  base : Toy.Cong;
  parent : bool
}.

#[global] Instance presentation : Presentation Cong := {|
  init_relations c k := (c, k);
  relations c := Toy.cong_relations (base c);
  extra c := Toy.cong_extra (base c);
  _nrgens c := Toy.cong_nrgens (base c);
  has_parent_semigroup := parent;
  LIMIT_MAX := 2 ^ 64 - 1
|}.

Abbreviation State := (KBFP Cong Toy.RWS word_t Toy.Semigroup).

(** A new object over a presentation that has a parent semigroup and no
    extra pair. *)
Definition no_extra_state : State :=
  mkKBFP (mkCong (Toy.mkCong 2 [([0; 0], [0]); ([1; 1], [1])] []) true)
         (Toy.mkRWS [] false false) None false ∅ [] [].

End WithParent.

(** * Facts about the methods of kbfp.cc *)

Section KBFP_facts.

Context {Cong RWS rws_word_t Semigroup : Type}.
Context `{!Presentation Cong, !RewritingSystem RWS rws_word_t}.
Context `{!Enumeration Semigroup (RWSE RWS rws_word_t)}.

Abbreviation State := (KBFP Cong RWS rws_word_t Semigroup).
Abbreviation Cell := (Cell (RWS := RWS) (rws_word_t := rws_word_t)).

Implicit Types (s : State) (h : gmap addr Cell) (xs gens : list addr).

(** ** The heap *)

Lemma lookup_delete_all xs h k :
  delete_all xs h !! k = if decide (k ∈ xs) then None else h !! k.
Proof.
  revert h. induction xs as [|x xs IH]; intros h; cbn [delete_all foldl].
  - case_decide as Hk; [by apply elem_of_nil in Hk | done].
  - fold (delete_all xs (delete x h)). rewrite IH.
    destruct (decide (k ∈ xs)) as [Hin|Hout].
    + rewrite decide_True; [done | by right].
    + destruct (decide (k = x)) as [->|Hne].
      * rewrite lookup_delete_eq. rewrite decide_True; [done | by left].
      * rewrite lookup_delete_ne by done.
        rewrite decide_False; [done|].
        by intros [?|?]%elem_of_cons.
Qed.

Lemma really_delete_cont_ok xs s :
  NoDup xs →
  (∀ x, x ∈ xs → ∃ e, heap s !! x = Some (mkCell e true)) →
  really_delete_cont xs s = Ok tt (set_heap (delete_all xs (heap s)) s).
Proof.
  revert s. induction xs as [|x xs IH]; intros s Hnd Hlive.
  - by destruct s.
  - apply NoDup_cons in Hnd as [Hx Hnd].
    destruct (Hlive x) as [e He]; [by left|].
    cbn [really_delete_cont]. unfold mbind, M_bind.
    unfold really_delete at 1. rewrite He.
    unfold delete_ptr at 1. cbn [heap set_heap].
    rewrite lookup_insert_eq.
    rewrite IH; [| done |].
    + cbn. by rewrite delete_insert_eq.
    + intros y Hy. cbn. rewrite delete_insert_eq.
      destruct (Hlive y) as [e' He']; [by right|].
      exists e'. rewrite lookup_delete_ne; [done|]. by intros ->.
Qed.

(** The loop of lines 63-65 allocates one live cell for each generator, at
    addresses that were free, and touches nothing else. *)
Lemma push_back_gens_ok n i gens s :
  ∃ xs h,
    push_back_gens n i gens s = Ok (gens ++ xs) (set_heap h s)
    ∧ NoDup xs
    ∧ (∀ x, x ∈ xs → heap s !! x = None)
    ∧ (∀ x, x ∉ xs → h !! x = heap s !! x)
    ∧ Forall2 (λ x a, h !! x = Some (mkCell (RWSE_of_letter (_rws s) a) true))
              xs (letters_from n i).
Proof.
  revert i gens s. induction n as [|n IH]; intros i gens s.
  - exists [], (heap s). cbn. rewrite app_nil_r. destruct s.
    split_and!; [done | apply NoDup_nil_2 | | done | constructor].
    intros x Hx. by apply elem_of_nil in Hx.
  - cbn [push_back_gens letters_from].
    unfold mbind, M_bind, get, new_RWSE.
    set (x := fresh (dom (heap s))).
    set (c := mkCell (RWSE_of_letter (_rws s) i) true).
    assert (Hfresh : heap s !! x = None).
    { apply not_elem_of_dom. apply is_fresh. }
    destruct (IH (size_t_add i 1) (gens ++ [x])
                 (set_heap (<[x:=c]> (heap s)) s))
      as (xs & h & Hrun & Hnd & Hfree & Hkeep & Hcells).
    cbn [heap set_heap _rws] in *.
    exists (x :: xs), h.
    assert (Hx : x ∉ xs).
    { intros Hin. apply Hfree in Hin. by rewrite lookup_insert_eq in Hin. }
    split_and!.
    + rewrite Hrun, <- app_assoc. by destruct s.
    + by apply NoDup_cons.
    + intros y [->|Hy]%elem_of_cons; [done|].
      apply Hfree in Hy. destruct (decide (x = y)) as [->|Hne]; [done|].
      by rewrite lookup_insert_ne in Hy.
    + intros y Hy. apply not_elem_of_cons in Hy as [Hne Hy].
      rewrite (Hkeep y Hy). by rewrite lookup_insert_ne.
    + constructor; [|done].
      rewrite (Hkeep x Hx). by rewrite lookup_insert_eq.
Qed.

Lemma mapM_deref_ok xs (es : list (RWSE RWS rws_word_t)) s :
  Forall2 (λ x e, heap s !! x = Some (mkCell e true)) xs es →
  mapM deref xs s = Ok es s.
Proof.
  induction 1 as [|x e xs es Hx _ IH]; [done|].
  cbn [mapM]. unfold mbind, M_bind at 1. unfold deref at 1. rewrite Hx.
  unfold M_bind at 1. by rewrite IH.
Qed.

Lemma length_letters_from n i : length (letters_from n i) = n.
Proof. revert i. induction n as [|n IH]; intros i; cbn; by rewrite ?IH. Qed.

(** ** [init], exit by exit *)

Ltac simpl_state :=
  repeat (unfold log, set_rws, set_killed, set_cong, set_semigroup, set_heap,
            set_leaked;
          cbn [_cong _rws _killed _semigroup heap leaked trace
               assert mret M_ret fst snd]).

Ltac norm_state :=
  simpl_state; rewrite <- ?app_assoc; cbn [app].

Lemma init_eq s :
  init s =
  if bool_decide (is_Some (_semigroup s)) then Ok tt s
  else if presentation_ok (_cong (fed s)) then
    if _killed (completed (fed s))
    then Ok tt (log (Call_REPORT "killed") (completed (fed s)))
    else if is_confluent (_rws (completed (fed s)))
         then Ok tt (ready (completed (fed s)))
         else Abort (AssertionFailed 61)
  else Abort (AssertionFailed 52).
Proof.
  unfold init. unfold mbind at 1. unfold M_bind at 1. unfold get at 1.
  case_bool_decide as Hsg; [done|].
  unfold mbind, M_bind, cong_init_relations, get, rws_add_rules, REPORT,
    rws_knuth_bendix, modify.
  unfold completed, fed.
  destruct (init_relations (_cong s) (_killed s)) as [c k] eqn:Hir.
  simpl_state.
  destruct (presentation_ok c); [|done].
  simpl_state.
  destruct (knuth_bendix (add_rules (add_rules (_rws s) (relations c))
                                    (extra c)) k) as [r k'] eqn:Hkb.
  simpl_state. rewrite <- !app_assoc. cbn [app].
  destruct k'. { norm_state. done. }
  destruct (is_confluent r); [|done].
  simpl_state.
  set (s2 := mkKBFP c r _ false _ _ _).
  destruct (push_back_gens_ok (N.to_nat (_nrgens c)) 0 [] s2)
    as (xs & h & Hrun & Hnd & Hfree & Hkeep & Hcells).
  rewrite Hrun. cbn [app].
  unfold semigroup_new, mbind, M_bind.
  rewrite (mapM_deref_ok xs (generators s2)); last first.
  { unfold generators. apply Forall2_fmap_r. exact Hcells. }
  unfold modify. rewrite really_delete_cont_ok; [| done |]; last first.
  { intros x Hx. simpl_state.
    apply list_elem_of_lookup in Hx as [j Hj].
    destruct (Forall2_lookup_l _ _ _ _ _ Hcells Hj) as (a & _ & Ha).
    eauto. }
  f_equal. unfold ready. simpl_state.
  assert (Hheap : delete_all xs h = heap s2).
  { apply map_eq. intros x. rewrite lookup_delete_all.
    case_decide as Hx; [by rewrite Hfree | by apply Hkeep]. }
  assert (Hlen : length xs = N.to_nat (_nrgens (_cong s2))).
  { rewrite (Forall2_length _ _ _ Hcells). apply length_letters_from. }
  by rewrite Hheap, Hlen.
Qed.

Lemma init_built s : is_Some (_semigroup s) → init s = Ok tt s.
Proof. intros Hsg. rewrite init_eq. by rewrite bool_decide_eq_true_2. Qed.

Lemma well_formed_built s sg :
  well_formed s = true → _semigroup s = Some sg →
  is_confluent (_rws s) = true.
Proof. unfold well_formed. intros Hwf Hsg. by rewrite Hsg in Hwf. Qed.

Lemma init_well_formed s s' :
  well_formed s = true → init s = Ok tt s' → well_formed s' = true.
Proof.
  intros Hwf. rewrite init_eq. repeat case_match; try done.
  - by intros [= <-].
  - intros [= <-]. unfold well_formed, completed, fed. norm_state.
    destruct (_semigroup s) eqn:Hsg; [|done].
    by rewrite bool_decide_eq_true_2 in *.
  - intros [= <-]. unfold well_formed, ready. by norm_state.
Qed.

(** After [init], a signal that is down means that the semigroup is built. *)
Lemma init_not_killed_built s s' :
  init s = Ok tt s' → _killed s' = false → is_Some (_semigroup s').
Proof.
  rewrite init_eq. repeat case_match; try done.
  - intros [= <-] _. by case_bool_decide.
  - intros [= <-]. norm_state. congruence.
  - intros [= <-] _. unfold ready. by norm_state.
Qed.

(** After [init], a signal that is up means that no semigroup was built by
    this call. *)
Lemma init_killed_semigroup s s' :
  init s = Ok tt s' → _killed s' = true → _semigroup s' = _semigroup s.
Proof.
  rewrite init_eq. repeat case_match; try done.
  - by intros [= <-].
  - by intros [= <-].
  - intros [= <-]. unfold ready. norm_state. congruence.
Qed.

Lemma init_not_killed_confluent s s' :
  well_formed s = true → init s = Ok tt s' → _killed s' = false →
  is_confluent (_rws s') = true.
Proof.
  intros Hwf Hinit Hk.
  destruct (init_not_killed_built s s' Hinit Hk) as [sg Hsg].
  apply (well_formed_built s' sg); [|done]. by apply (init_well_formed s).
Qed.

(** ** [init] and the heap *)

(** C9: on every exit of [init] that returns (already built, cancelled, or
    semigroup built) the heap is what it was on entry and no data has been
    lost: every generator element that the call allocated has been given
    back, its data first by [really_delete] and then its cell by [delete]. *)
Theorem init_releases_generators s s' :
  init s = Ok tt s' → heap s' = heap s ∧ leaked s' = leaked s.
Proof.
  rewrite init_eq. repeat case_match; try done; by intros [= <-].
Qed.

(** The only faults of [init] are its two assertions: no element is read or
    deleted after it was deleted. *)
Lemma init_no_invalid_pointer s : init s ≠ Abort InvalidPointer.
Proof. rewrite init_eq. by repeat case_match. Qed.

(** ** [init] twice *)

(** C5, amended: [init] changes nothing once the semigroup is built, whatever
    the signal is, since the guard of line 45 is on [_semigroup] alone; a
    call that returns with the signal down has built it.  A call that
    returns without a semigroup was cancelled, and the next call starts
    again: it calls [init_relations], feeds the relations and the extra pairs
    to the rewriting system once more and runs completion on the result. *)
Theorem init_idempotent_once_built s s' :
  init s = Ok tt s' →
  (is_Some (_semigroup s') → init s' = Ok tt s')
  ∧ (_killed s' = false → init s' = Ok tt s')
  ∧ (_semigroup s' = None →
     _killed s' = true
     ∧ ∀ s'', init s' = Ok tt s'' →
         _cong s'' = (init_relations (_cong s') (_killed s')).1
         ∧ _rws s''
           = (knuth_bendix
                (add_rules (add_rules (_rws s') (relations (_cong s'')))
                           (extra (_cong s'')))
                (init_relations (_cong s') (_killed s')).2).1
         ∧ take 5 (drop (length (trace s')) (trace s''))
           = [Call_init_relations;
              Call_add_rules (relations (_cong s''));
              Call_add_rules (extra (_cong s''));
              Call_REPORT "running Knuth-Bendix . . .";
              Call_knuth_bendix]).
Proof.
  intros Hinit. split; [apply init_built|]. split.
  { intros Hk. apply init_built. by apply (init_not_killed_built s). }
  intros Hnone. split.
  { destruct (_killed s') eqn:Hk; [done|].
    destruct (init_not_killed_built s s' Hinit Hk) as [sg Hsg]. congruence. }
  intros s''. rewrite init_eq. case_bool_decide as Hsg.
  { rewrite Hnone in Hsg. by destruct Hsg. }
  destruct (presentation_ok _); [|done].
  destruct (_killed (completed (fed s'))); [|destruct (is_confluent _)];
    try done; intros [= <-];
    unfold ready, completed, fed; norm_state;
    by rewrite drop_app_length.
Qed.

(** ** The queries, as equations *)

Lemma current_equals_eq w1 w2 s :
  current_equals w1 w2 s =
  match init s with
  | Ok _ s1 =>
      if _killed s1 then Ok UNKNOWN s1
      else if is_confluent (_rws s1) then
        Ok (if bool_decide (rewrite (_rws s1) (word_to_rws_word w1)
                            = rewrite (_rws s1) (word_to_rws_word w2))
            then TRUE else FALSE) s1
      else Abort (AssertionFailed 104)
  | Abort e => Abort e
  end.
Proof.
  unfold current_equals, mbind, M_bind, get, is_killed.
  destruct (init s) as [[] s1|e]; [|done].
  destruct (_killed s1); [done|].
  by destruct (is_confluent (_rws s1)).
Qed.

Lemma current_less_than_eq w1 w2 s :
  current_less_than w1 w2 s =
  match init s with
  | Ok _ s1 =>
      if is_confluent (_rws s1) then
        Ok (if test_less_than (_rws s1) (word_to_rws_word w1)
                              (word_to_rws_word w2)
            then TRUE else FALSE) s1
      else Abort (AssertionFailed 114)
  | Abort e => Abort e
  end.
Proof.
  unfold current_less_than, mbind, M_bind, get.
  destruct (init s) as [[] s1|e]; [|done].
  by destruct (is_confluent (_rws s1)).
Qed.

(** C1, amended: [current_equals] runs [init] and then answers UNKNOWN
    exactly when the signal is up at its check, confluent or not; with the
    signal down it answers TRUE when the two normal forms are equal and
    FALSE when they differ, whatever has been enumerated so far. *)
Theorem current_equals_answer w1 w2 s s1 :
  well_formed s = true → init s = Ok tt s1 →
  ∃ r, current_equals w1 w2 s = Ok r s1
       ∧ (r = UNKNOWN ↔ _killed s1 = true)
       ∧ (r = TRUE ↔ _killed s1 = false
                      ∧ rewrite (_rws s1) (word_to_rws_word w1)
                        = rewrite (_rws s1) (word_to_rws_word w2))
       ∧ (r = FALSE ↔ _killed s1 = false
                       ∧ rewrite (_rws s1) (word_to_rws_word w1)
                         ≠ rewrite (_rws s1) (word_to_rws_word w2)).
Proof.
  intros Hwf Hinit. rewrite current_equals_eq, Hinit.
  destruct (_killed s1) eqn:Hk.
  - exists UNKNOWN. split_and!; [done | done | split | split];
      try done; by intros [? _].
  - rewrite (init_not_killed_confluent s s1 Hwf Hinit Hk).
    eexists. split; [done|]. case_bool_decide as Heq.
    + split_and!; split; try done. by intros [_ ?].
    + split_and!; split; try done. by intros [_ ?].
Qed.

(** C7: [current_less_than] runs [init], asserts confluence and gives the
    answer of [test_less_than] as TRUE or FALSE.  It never answers UNKNOWN
    and does not look at the signal: where [init] leaves the signal up and
    the system not confluent, [current_equals] answers UNKNOWN and
    [current_less_than] fails the assertion of line 114. *)
Theorem current_less_than_answer w1 w2 s s1 :
  init s = Ok tt s1 →
  (is_confluent (_rws s1) = true →
   current_less_than w1 w2 s =
     Ok (if test_less_than (_rws s1) (word_to_rws_word w1)
                           (word_to_rws_word w2)
         then TRUE else FALSE) s1)
  ∧ (is_confluent (_rws s1) = false →
     current_less_than w1 w2 s = Abort (AssertionFailed 114))
  ∧ (_killed s1 = true → is_confluent (_rws s1) = false →
     current_equals w1 w2 s = Ok UNKNOWN s1)
  ∧ (∀ s', current_less_than w1 w2 s ≠ Ok UNKNOWN s').
Proof.
  intros Hinit. rewrite current_less_than_eq, current_equals_eq, Hinit.
  split_and!.
  - by intros ->.
  - by intros ->.
  - by intros -> _.
  - intros s'. destruct (is_confluent (_rws s1)); [|done].
    by destruct (test_less_than _ _ _).
Qed.

(** ** [run(steps)] with the signal up *)

Lemma run_steps_cancelled steps s s1 :
  is_done s = false → init s = Ok tt s1 → _killed s1 = true →
  run_steps steps s = Ok tt (log (Call_REPORT "killed") s1).
Proof.
  intros Hdone Hinit Hk.
  unfold run_steps, mbind, M_bind, get. rewrite Hdone. cbn [negb assert].
  unfold mret at 1. unfold M_ret at 1. rewrite Hinit, Hk. cbn [negb].
  unfold mret at 1. unfold M_ret at 1. by rewrite Hk.
Qed.

(** C10: when the signal is up at the check that follows [init], [run_steps]
    adds nothing but the report of lines 81-83: no batch size is set,
    [enumerate] is not called, and the semigroup is the one the caller
    had. *)
Theorem run_steps_killed steps s s1 :
  is_done s = false → init s = Ok tt s1 → _killed s1 = true →
  run_steps steps s = Ok tt (log (Call_REPORT "killed") s1)
  ∧ _semigroup (log (Call_REPORT "killed") s1) = _semigroup s
  ∧ trace (log (Call_REPORT "killed") s1)
    = trace s1 ++ [Call_REPORT "killed"].
Proof.
  intros Hdone Hinit Hk.
  split; [by apply run_steps_cancelled|]. split; [|done].
  change (_semigroup s1 = _semigroup s). by apply init_killed_semigroup.
Qed.

(** ** [word_to_class_index] *)

Lemma is_done_built s :
  is_done s = true →
  ∃ sg, _semigroup s = Some sg ∧ fully_closed sg = true ∧ _killed s = false.
Proof.
  unfold is_done. destruct (_semigroup s) as [sg|]; [|done].
  intros [? ?%negb_true_iff]%andb_true_iff. eauto.
Qed.

Lemma word_to_class_index_eq word s sg :
  is_done s = true → _semigroup s = Some sg →
  word_to_class_index word s =
  if bool_decide (position sg (RWSE_of_word (_rws s) word) = UNDEFINED)
  then Abort (AssertionFailed 94)
  else Ok (position sg (RWSE_of_word (_rws s) word)) s.
Proof.
  intros Hdone Hsg.
  unfold word_to_class_index, mbind, M_bind, get. rewrite Hdone.
  cbn [assert]. unfold mret at 1. unfold M_ret at 1.
  unfold new_RWSE, the_semigroup. norm_state. rewrite Hsg.
  unfold deref. norm_state. rewrite lookup_insert_eq.
  unfold really_delete. norm_state. rewrite lookup_insert_eq.
  unfold delete_ptr. norm_state. rewrite lookup_insert_eq.
  rewrite !delete_insert_eq, delete_id
    by (apply not_elem_of_dom, is_fresh).
  rewrite <- Hsg.
  case_bool_decide as Hpos; cbn [negb assert]; unfold abort, mret, M_ret.
  - by rewrite bool_decide_eq_true_2.
  - rewrite bool_decide_eq_false_2 by done. by destruct s.
Qed.


(** ** The loop of [run()] *)

Lemma run_killed fuel s : _killed s = true → run (S fuel) s = Some (Ok tt s).
Proof. intros Hk. cbn [run]. by rewrite Hk. Qed.

Lemma run_sound fuel s o :
  run fuel s = Some o → run_until_done_or_cancelled s o.
Proof.
  revert s. induction fuel as [|fuel IH]; intros s; [done|].
  cbn [run]. destruct (_killed s) eqn:Hk; cbn [negb andb].
  { intros ?; simplify_eq. apply run_stop. by left. }
  destruct (is_done s) eqn:Hd; cbn [negb].
  { intros ?; simplify_eq. apply run_stop. by right. }
  destruct (run_steps LIMIT_MAX s) as [[] s'|e] eqn:Hrun.
  - intros Hrest. apply (run_again s s'); auto.
  - intros ?; simplify_eq. by apply run_abort.
Qed.

Lemma run_complete s o :
  run_until_done_or_cancelled s o → ∃ fuel, run fuel s = Some o.
Proof.
  induction 1 as [s Hstop|s s' o Hk Hd Hrun _ [fuel IH]|s e Hk Hd Hrun].
  - exists 1%nat. cbn [run].
    destruct Hstop as [->| ->]; [done|]. by rewrite andb_false_r.
  - exists (S fuel). cbn [run]. by rewrite Hk, Hd, Hrun.
  - exists 1%nat. cbn [run]. by rewrite Hk, Hd, Hrun.
Qed.

(** C8: [run()] with enough fuel gives what "[run_steps LIMIT_MAX] again
    and again until done or cancelled" gives, and nothing else.  The signal
    is tested before each call: an object whose signal is up is left as it
    is, and an object that [run()] returns is cancelled or done. *)
Theorem run_refines s o :
  ((∃ fuel, run fuel s = Some o) ↔ run_until_done_or_cancelled s o)
  ∧ (_killed s = true → ∀ fuel, run (S fuel) s = Some (Ok tt s))
  ∧ (∀ s', o = Ok tt s' → run_until_done_or_cancelled s o →
           _killed s' = true ∨ is_done s' = true).
Proof.
  split_and!.
  - split; [intros [fuel Hrun]; by apply (run_sound fuel) | apply run_complete].
  - intros Hk fuel. by apply run_killed.
  - intros s' -> Hrun. remember (Ok tt s') as o eqn:Ho.
    induction Hrun as [s Hstop|s s1 o Hk Hd Hsteps _ IH|s e Hk Hd Hsteps].
    + by injection Ho as <-.
    + by apply IH.
    + done.
Qed.

(** ** With the contracts of the collaborators *)

Section with_enumeration_laws.

Context `{!EnumerationLaws Semigroup RWS rws_word_t}.

Lemma run_steps_not_killed steps s s1 sg :
  is_done s = false → init s = Ok tt s1 → _killed s1 = false →
  _semigroup s1 = Some sg →
  run_steps steps s = Ok tt (enumerated steps sg s1).
Proof.
  intros Hdone Hinit Hk Hsg.
  unfold run_steps, mbind, M_bind, get. rewrite Hdone. cbn [negb assert].
  unfold mret at 1. unfold M_ret at 1. rewrite Hinit, Hk. cbn [negb].
  unfold REPORT, modify, semigroup_set_batch_size, semigroup_enumerate,
    the_semigroup, mbind, M_bind, modify.
  norm_state. rewrite Hsg. norm_state. rewrite Hk.
  unfold enumerated. norm_state.
  destruct (enumerate _ _ _) as [sg' k'] eqn:Hen. norm_state.
  destruct k'; by norm_state.
Qed.

Lemma run_steps_well_formed steps s s' :
  well_formed s = true → run_steps steps s = Ok tt s' →
  well_formed s' = true.
Proof.
  intros Hwf Hrun.
  destruct (is_done s) eqn:Hdone.
  { unfold run_steps, mbind, M_bind, get in Hrun.
    by rewrite Hdone in Hrun. }
  destruct (init s) as [[] s1|e] eqn:Hinit; last first.
  { unfold run_steps, mbind, M_bind, get in Hrun.
    rewrite Hdone in Hrun. cbn [negb assert] in Hrun.
    unfold mret at 1 in Hrun. unfold M_ret at 1 in Hrun.
    by rewrite Hinit in Hrun. }
  pose proof (init_well_formed s s1 Hwf Hinit) as Hwf1.
  destruct (_killed s1) eqn:Hk.
  - rewrite (run_steps_cancelled steps s s1 Hdone Hinit Hk) in Hrun.
    by injection Hrun as <-.
  - destruct (init_not_killed_built s s1 Hinit Hk) as [sg Hsg].
    rewrite (run_steps_not_killed steps s s1 sg Hdone Hinit Hk Hsg) in Hrun.
    injection Hrun as <-.
    pose proof (well_formed_built s1 sg Hwf1 Hsg) as Hc.
    unfold well_formed, enumerated.
    destruct (enumerate _ _ _) as [sg' []]; by norm_state.
Qed.

(** C2, amended: a call of [run_steps] on an object that is not done,
    where the signal is down at the check that follows [init], sets the
    batch size to [steps] and calls [enumerate] with the limit
    [current_size() + 1]; if the signal is still down when [enumerate]
    returns, the semigroup has at least one more element or is fully
    closed. *)
Theorem run_steps_progress steps s s1 :
  is_done s = false → init s = Ok tt s1 → _killed s1 = false →
  ∃ sg sg',
    _semigroup s1 = Some sg
    ∧ run_steps steps s = Ok tt (enumerated steps sg s1)
    ∧ _semigroup (enumerated steps sg s1) = Some sg'
    ∧ sg' = (enumerate (set_batch_size sg steps) false
                       (size_t_add (current_size sg) 1)).1
    ∧ take 3 (drop (length (trace s1)) (trace (enumerated steps sg s1)))
      = [Call_REPORT "running Froidure-Pin . . .";
         Call_set_batch_size steps;
         Call_enumerate (size_t_add (current_size sg) 1)]
    ∧ (_killed (enumerated steps sg s1) = false →
       current_size sg + 1 < size_t_modulus →
       current_size sg + 1 ≤ current_size sg'
       ∨ fully_closed sg' = true).
Proof.
  intros Hdone Hinit Hk.
  destruct (init_not_killed_built s s1 Hinit Hk) as [sg Hsg].
  set (limit := size_t_add (current_size sg) 1).
  exists sg, (enumerate (set_batch_size sg steps) false limit).1.
  split; [done|]. split; [by apply run_steps_not_killed|].
  unfold enumerated. rewrite current_size_set_batch_size. fold limit.
  pose proof (enumerate_limit (set_batch_size sg steps) false limit)
    as Hlim.
  destruct (enumerate (set_batch_size sg steps) false limit)
    as [sg' k'] eqn:Hen.
  cbn [fst snd] in *. norm_state. destruct k'; norm_state.
  - rewrite drop_app_length. by split_and!.
  - rewrite drop_app_length. split_and!; try done.
    intros _ Hsize.
    destruct Hlim as [Hlim|Hclosed]; [done | left | by right].
    unfold limit, size_t_add in Hlim.
    by rewrite N.mod_small in Hlim.
Qed.


End with_enumeration_laws.

Section with_signal_laws.

Context `{!PresentationLaws Cong, !SignalLaws Cong RWS rws_word_t}.

Lemma init_cancelled s :
  cancelled_unready s →
  init s = Ok tt (log (Call_REPORT "killed") (completed (fed s)))
  ∧ cancelled_unready (log (Call_REPORT "killed") (completed (fed s))).
Proof.
  intros (Hk & Hsg & Hok).
  assert (Hfed : presentation_ok (_cong (fed s)) = true).
  { unfold fed. norm_state. by apply init_relations_ok. }
  assert (Hk1 : _killed (fed s) = true).
  { unfold fed. norm_state. rewrite Hk. apply init_relations_killed. }
  assert (Hk2 : _killed (completed (fed s)) = true).
  { unfold completed. norm_state. rewrite Hk1. apply knuth_bendix_killed. }
  split.
  - rewrite init_eq, Hfed, Hk2. case_bool_decide as H; [|done].
    rewrite Hsg in H. by destruct H.
  - unfold cancelled_unready. norm_state. by rewrite Hk2.
Qed.

Lemma equals_each_cancelled queries s :
  cancelled_unready s →
  ∃ s', equals_each queries s
        = Ok (replicate (length queries) UNKNOWN) s'
        ∧ cancelled_unready s'.
Proof.
  revert s. induction queries as [|[w1 w2] queries IH]; intros s Hs.
  { by exists s. }
  destruct (init_cancelled s Hs) as [Hinit Hs1].
  destruct (IH _ Hs1) as (s' & Hrest & Hs').
  exists s'. split; [|done].
  unfold equals_each in *. cbn [mapM length replicate fst snd].
  unfold mbind at 1. unfold M_bind at 1.
  rewrite current_equals_eq, Hinit.
  destruct Hs1 as [-> _]. unfold mbind, M_bind at 1. by rewrite Hrest.
Qed.

(** C6: when the signal is up before the first [init], that call returns
    after feeding the rewriting system and one call of [knuth_bendix]: it
    adds six entries to the trace, allocates nothing and builds no
    semigroup.  [is_done] is false afterwards, and each [equals] query
    that follows answers UNKNOWN. *)
Theorem init_cancelled_before_first_call s queries :
  _killed s = true → _semigroup s = None →
  presentation_ok (_cong s) = true →
  ∃ s' s'',
    init s = Ok tt s'
    ∧ _semigroup s' = None
    ∧ is_done s' = false
    ∧ heap s' = heap s
    ∧ trace s' = trace s ++ [Call_init_relations;
                             Call_add_rules (relations (_cong s'));
                             Call_add_rules (extra (_cong s'));
                             Call_REPORT "running Knuth-Bendix . . .";
                             Call_knuth_bendix;
                             Call_REPORT "killed"]
    ∧ equals_each queries s' = Ok (replicate (length queries) UNKNOWN) s''
    ∧ is_done s'' = false.
Proof.
  intros Hk Hsg Hok.
  destruct (init_cancelled s) as [Hinit Hs1]; [done|].
  destruct (equals_each_cancelled queries _ Hs1) as (s'' & Heq & Hs'').
  eexists _, s''. split; [done|].
  destruct Hs1 as (_ & Hsg1 & _), Hs'' as (_ & Hsg2 & _).
  split; [done|]. split; [unfold is_done; by rewrite Hsg1|].
  split; [done|]. split.
  { unfold completed, fed. norm_state. done. }
  split; [done|]. unfold is_done. by rewrite Hsg2.
Qed.

End with_signal_laws.

(** ** More on the methods: faults, frames and how the calls compose *)

Section more_facts.

(** *** [really_delete_cont] *)

Lemma really_delete_cont_inv xs s s' :
  really_delete_cont xs s = Ok tt s' →
  NoDup xs ∧ ∀ x, x ∈ xs → ∃ e, heap s !! x = Some (mkCell e true).
Proof.
  revert s. induction xs as [|x xs IH]; intros s.
  { intros _. split; [apply NoDup_nil_2|]. intros x Hx.
    by apply elem_of_nil in Hx. }
  cbn [really_delete_cont]. unfold mbind, M_bind.
  unfold really_delete at 1.
  destruct (heap s !! x) as [[e []]|] eqn:Hx; try done.
  unfold delete_ptr at 1. norm_state. rewrite lookup_insert_eq.
  rewrite delete_insert_eq. intros Hrest.
  destruct (IH _ Hrest) as [Hnd Hlive]. cbn [heap] in Hlive.
  assert (Hnotin : x ∉ xs).
  { intros Hin. destruct (Hlive x Hin) as [e' He'].
    by rewrite lookup_delete_eq in He'. }
  split; [by apply NoDup_cons|].
  intros y [->|Hy]%elem_of_cons; [by exists e|].
  destruct (Hlive y Hy) as [e' He'].
  exists e'. rewrite lookup_delete_ne in He'; [done|]. by intros ->.
Qed.

(** X1: [really_delete_cont] returns exactly when the pointers of the
    container are pairwise distinct and point to live elements; it then
    frees those cells, keeps every other cell and changes nothing else. *)
Theorem really_delete_cont_exact xs s s' :
  really_delete_cont xs s = Ok tt s'
  ↔ NoDup xs
    ∧ (∀ x, x ∈ xs → ∃ e, heap s !! x = Some (mkCell e true))
    ∧ (∀ k, heap s' !! k = if decide (k ∈ xs) then None else heap s !! k)
    ∧ set_heap (heap s) s' = s.
Proof.
  split.
  - intros Hrun. destruct (really_delete_cont_inv xs s s' Hrun) as [Hnd Hlive].
    rewrite (really_delete_cont_ok xs s Hnd Hlive) in Hrun.
    injection Hrun as <-. split_and!; try done.
    + intros k. cbn [heap set_heap]. apply lookup_delete_all.
    + by destruct s.
  - intros (Hnd & Hlive & Hheap & Hrest).
    rewrite (really_delete_cont_ok xs s Hnd Hlive). f_equal.
    assert (Hh : delete_all xs (heap s) = heap s').
    { apply map_eq. intros k. by rewrite lookup_delete_all, Hheap. }
    rewrite Hh, <- Hrest. by destruct s'.
Qed.

(** *** The faults of [init], [run_steps] and [run] *)

Lemma init_abort_cases s e :
  init s = Abort e →
  _semigroup s = None ∧ (e = AssertionFailed 52 ∨ e = AssertionFailed 61).
Proof.
  rewrite init_eq. case_bool_decide as Hsg; [done|].
  assert (_semigroup s = None) as Hnone.
  { destruct (_semigroup s) eqn:H; [|done]. destruct Hsg. by eexists. }
  repeat case_match; try done; intros [= <-]; auto.
Qed.

(** X2: [init] fails only on its own two assertions, and only on an object
    without a semigroup: on line 52 exactly when the presentation, once its
    relations are materialised, has a parent semigroup and no extra pair; on
    line 61 exactly when completion returns with the signal down and a system
    that is not confluent.  It never reads or deletes an invalid pointer. *)
Theorem init_faults s e :
  init s = Abort e
  ↔ _semigroup s = None
    ∧ ((presentation_ok (_cong (fed s)) = false ∧ e = AssertionFailed 52)
       ∨ (presentation_ok (_cong (fed s)) = true
          ∧ _killed (completed (fed s)) = false
          ∧ is_confluent (_rws (completed (fed s))) = false
          ∧ e = AssertionFailed 61)).
Proof.
  rewrite init_eq. split.
  - case_bool_decide as Hsg; [done|].
    assert (_semigroup s = None) as Hnone.
    { destruct (_semigroup s) eqn:H; [|done]. destruct Hsg. by eexists. }
    repeat case_match; try done; intros [= <-]; split; auto.
  - intros (Hsg & [[Hok ->]|(Hok & Hk & Hc & ->)]).
    + rewrite Hok. case_bool_decide as H; [|done].
      rewrite Hsg in H. by destruct H.
    + rewrite Hok, Hk, Hc. case_bool_decide as H; [|done].
      rewrite Hsg in H. by destruct H.
Qed.

Lemma run_steps_init_abort steps s e :
  is_done s = false → init s = Abort e → run_steps steps s = Abort e.
Proof.
  intros Hdone Hinit.
  unfold run_steps, mbind, M_bind, get. rewrite Hdone. cbn [negb assert].
  unfold mret at 1. unfold M_ret at 1. by rewrite Hinit.
Qed.

Lemma run_steps_done steps s :
  is_done s = true → run_steps steps s = Abort (AssertionFailed 71).
Proof.
  intros Hdone. unfold run_steps, mbind, M_bind, get. by rewrite Hdone.
Qed.

(** What a call of [run_steps] that returns has done. *)
Lemma run_steps_ok_cases steps s s' :
  run_steps steps s = Ok tt s' →
  is_done s = false
  ∧ ∃ s1, init s = Ok tt s1
          ∧ ((_killed s1 = true ∧ s' = log (Call_REPORT "killed") s1)
             ∨ (_killed s1 = false
                ∧ ∃ sg, _semigroup s1 = Some sg
                        ∧ s' = enumerated steps sg s1)).
Proof.
  intros Hrun. destruct (is_done s) eqn:Hdone.
  { by rewrite run_steps_done in Hrun. }
  split; [done|].
  destruct (init s) as [[] s1|e] eqn:Hinit; last first.
  { by rewrite (run_steps_init_abort steps s e) in Hrun. }
  exists s1. split; [done|]. destruct (_killed s1) eqn:Hk.
  - left. rewrite (run_steps_cancelled steps s s1 Hdone Hinit Hk) in Hrun.
    by injection Hrun as <-.
  - right. destruct (init_not_killed_built s s1 Hinit Hk) as [sg Hsg].
    rewrite (run_steps_not_killed steps s s1 sg Hdone Hinit Hk Hsg) in Hrun.
    injection Hrun as <-. eauto.
Qed.

Lemma run_steps_abort_cases steps s e :
  run_steps steps s = Abort e →
  (is_done s = true ∧ e = AssertionFailed 71)
  ∨ (is_done s = false ∧ init s = Abort e).
Proof.
  intros Hrun. destruct (is_done s) eqn:Hdone.
  { rewrite run_steps_done in Hrun by done. injection Hrun as <-. by left. }
  right. split; [done|].
  destruct (init s) as [[] s1|e0] eqn:Hinit.
  - destruct (_killed s1) eqn:Hk.
    + by rewrite (run_steps_cancelled steps s s1 Hdone Hinit Hk) in Hrun.
    + destruct (init_not_killed_built s s1 Hinit Hk) as [sg Hsg].
      by rewrite (run_steps_not_killed steps s s1 sg Hdone Hinit Hk Hsg)
        in Hrun.
  - by rewrite (run_steps_init_abort steps s e0) in Hrun.
Qed.

(** X7: [run_steps] fails exactly on its precondition (line 71, when the
    object is done) or on a fault of [init]; the pointer [_semigroup] that
    lines 78-79 go through is never null there. *)
Theorem run_steps_faults steps s e :
  run_steps steps s = Abort e
  ↔ (is_done s = true ∧ e = AssertionFailed 71)
    ∨ (is_done s = false ∧ init s = Abort e).
Proof.
  split; [apply run_steps_abort_cases|].
  intros [[Hdone ->]|[Hdone Hinit]].
  - by apply run_steps_done.
  - by apply run_steps_init_abort.
Qed.

Lemma init_keeps_heap s s' : init s = Ok tt s' → heap s' = heap s.
Proof. rewrite init_eq. repeat case_match; try done; by intros [= <-]. Qed.

Lemma init_built_inv s s' :
  is_Some (_semigroup s) → init s = Ok tt s' → s' = s.
Proof. intros Hsg. rewrite (init_built s Hsg). by intros [= <-]. Qed.

(** Once the semigroup is built, [run_steps] makes no call on the rewriting
    system or on the presentation. *)
Lemma run_steps_keeps steps s s' :
  run_steps steps s = Ok tt s' →
  heap s' = heap s
  ∧ (is_Some (_semigroup s) →
     _rws s' = _rws s ∧ _cong s' = _cong s ∧ is_Some (_semigroup s')).
Proof.
  intros Hrun.
  destruct (run_steps_ok_cases steps s s' Hrun) as (_ & s1 & Hinit & Hcases).
  pose proof (init_keeps_heap s s1 Hinit) as Hheap.
  assert (Hs' : heap s' = heap s1 ∧ _rws s' = _rws s1 ∧ _cong s' = _cong s1
                ∧ (is_Some (_semigroup s1) → is_Some (_semigroup s'))).
  { destruct Hcases as [[_ ->]|(_ & sg & Hsg & ->)]; [done|].
    unfold enumerated. case_match; norm_state; split_and!; try done;
      by eexists. }
  destruct Hs' as (Hh & Hr & Hc & Hb). split; [congruence|].
  intros Hsg. rewrite (init_built_inv s s1 Hsg Hinit) in *. auto.
Qed.

(** *** [init] on a new object *)

Lemma letters_from_seq n i :
  i + N.of_nat n ≤ size_t_modulus →
  letters_from n i = (λ j, i + N.of_nat j) <$> seq 0 n.
Proof.
  revert i. induction n as [|n IH]; intros i Hi; [done|].
  cbn [letters_from seq fmap list_fmap]. f_equal; [lia|].
  destruct n as [|n]; [done|].
  assert (Hsucc : size_t_add i 1 = i + 1).
  { unfold size_t_add. apply N.mod_small. lia. }
  rewrite Hsucc, IH by lia.
  rewrite <- fmap_S_seq, <- list_fmap_compose.
  apply list_fmap_ext. intros _ j _. cbn. lia.
Qed.

(** X3: a call of [init] on an object without a semigroup that returns with
    the signal down has fed the relations and then the extra pairs to the
    rewriting system, run completion once, found the system confluent, and
    built the semigroup from one element for each of the letters
    0, ..., nrgens - 1, in that order; these are its only calls. *)
Theorem init_builds_generators s s' :
  _semigroup s = None → init s = Ok tt s' → _killed s' = false →
  _nrgens (_cong s') < size_t_modulus →
  _cong s' = (init_relations (_cong s) (_killed s)).1
  ∧ _rws s' = (knuth_bendix
                 (add_rules (add_rules (_rws s) (relations (_cong s')))
                            (extra (_cong s')))
                 (init_relations (_cong s) (_killed s)).2).1
  ∧ is_confluent (_rws s') = true
  ∧ _semigroup s'
    = Some (new_Semigroup
              ((λ j, RWSE_of_letter (_rws s') (N.of_nat j))
                 <$> seq 0 (N.to_nat (_nrgens (_cong s')))))
  ∧ trace s' = trace s ++ [Call_init_relations;
                           Call_add_rules (relations (_cong s'));
                           Call_add_rules (extra (_cong s'));
                           Call_REPORT "running Knuth-Bendix . . .";
                           Call_knuth_bendix;
                           Call_new_Semigroup (N.to_nat (_nrgens (_cong s')))].
Proof.
  intros Hsg. rewrite init_eq. case_bool_decide as H.
  { rewrite Hsg in H. by destruct H. }
  destruct (presentation_ok _); [|done].
  destruct (_killed (completed (fed s))) eqn:Hk.
  { intros [= <-]. norm_state. congruence. }
  destruct (is_confluent (_rws (completed (fed s)))) eqn:Hc; [|done].
  intros [= <-] _. revert Hc.
  unfold ready, generators, completed, fed. norm_state.
  intros Hc Hn. split_and!; try done.
  do 2 f_equal. rewrite letters_from_seq by (rewrite N2Nat.id; lia).
  rewrite <- list_fmap_compose.
  apply list_fmap_ext. intros _ j _. cbn. by rewrite N.add_0_l.
Qed.

(** *** [run_steps] and [run] on a built object *)

(** X4: on an object whose semigroup is built, whose signal is down and
    which is not done, [run_steps] always returns: it sets the batch size,
    calls [enumerate] once, and leaves the rewriting system, the
    presentation and the heap as they were. *)
Theorem run_steps_ready steps s sg :
  _semigroup s = Some sg → _killed s = false → is_done s = false →
  run_steps steps s = Ok tt (enumerated steps sg s)
  ∧ _rws (enumerated steps sg s) = _rws s
  ∧ _cong (enumerated steps sg s) = _cong s
  ∧ heap (enumerated steps sg s) = heap s
  ∧ _semigroup (enumerated steps sg s)
    = Some (enumerate (set_batch_size sg steps) false
              (size_t_add (current_size (set_batch_size sg steps)) 1)).1.
Proof.
  intros Hsg Hk Hdone.
  assert (Hinit : init s = Ok tt s) by (apply init_built; by rewrite Hsg).
  split; [by apply run_steps_not_killed|].
  unfold enumerated. case_match; by norm_state.
Qed.

Lemma run_built_no_abort fuel s e :
  is_Some (_semigroup s) → run fuel s ≠ Some (Abort e).
Proof.
  revert s. induction fuel as [|fuel IH]; intros s Hsg; [done|].
  cbn [run]. case_match; [|done].
  destruct (run_steps LIMIT_MAX s) as [[] s1|e0] eqn:Hrun.
  - apply IH. by apply (run_steps_keeps LIMIT_MAX s s1).
  - destruct (run_steps_abort_cases _ _ _ Hrun) as [[Hd _]|[_ Hinit]].
    + rewrite Hd in *. by rewrite andb_false_r in *.
    + apply init_abort_cases in Hinit as [Hnone _].
      rewrite Hnone in Hsg. by destruct Hsg.
Qed.

(** X5: [run()] gives the heap back as it found it, and on an object whose
    semigroup is built it leaves the rewriting system and the presentation
    untouched and the semigroup built. *)
Theorem run_keeps fuel s s' :
  run fuel s = Some (Ok tt s') →
  heap s' = heap s
  ∧ (is_Some (_semigroup s) →
     _rws s' = _rws s ∧ _cong s' = _cong s ∧ is_Some (_semigroup s')).
Proof.
  revert s. induction fuel as [|fuel IH]; intros s; [done|].
  cbn [run]. case_match.
  - destruct (run_steps LIMIT_MAX s) as [[] s1|e0] eqn:Hrun; [|done].
    intros Hrest. destruct (IH s1 Hrest) as [Hh Hb].
    destruct (run_steps_keeps LIMIT_MAX s s1 Hrun) as [Hh1 Hb1].
    split; [congruence|]. intros Hsg.
    destruct (Hb1 Hsg) as (Hr1 & Hc1 & Hsg1).
    destruct (Hb Hsg1) as (Hr & Hc & Hsg'). split_and!; congruence.
  - intros ?; simplify_eq. done.
Qed.

(** X6: [run()] can fail only in its first iteration, and then on a fault of
    [init]: the precondition of [run_steps] (line 71) always holds in the
    loop, and on an object whose semigroup is built [run()] never fails. *)
Theorem run_faults fuel s e :
  run fuel s = Some (Abort e) →
  _killed s = false ∧ is_done s = false ∧ _semigroup s = None
  ∧ init s = Abort e
  ∧ (e = AssertionFailed 52 ∨ e = AssertionFailed 61).
Proof.
  destruct fuel as [|fuel]; [done|]. cbn [run].
  destruct (_killed s) eqn:Hk; [done|].
  destruct (is_done s) eqn:Hd; [done|]. cbn [negb andb].
  destruct (run_steps LIMIT_MAX s) as [[] s1|e0] eqn:Hrun.
  - intros Hrest.
    destruct (run_steps_ok_cases _ _ _ Hrun) as (_ & s0 & _ & Hcases).
    destruct Hcases as [[Hk0 ->]|(_ & sg & Hsg & ->)].
    + destruct fuel as [|fuel]; [done|]. cbn [run] in Hrest.
      change (_killed (log (Call_REPORT "killed") s0)) with (_killed s0)
        in Hrest.
      by rewrite Hk0 in Hrest.
    + exfalso. apply (run_built_no_abort fuel _ e) in Hrest; [done|].
      unfold enumerated. case_match; by norm_state.
  - intros ?; simplify_eq.
    destruct (run_steps_abort_cases _ _ _ Hrun) as [[Hd' _]|[_ Hinit]];
      [congruence|].
    destruct (init_abort_cases s e Hinit) as [Hnone He]. done.
Qed.

(** *** The queries *)

Lemma word_to_class_index_not_done word s :
  is_done s = false →
  word_to_class_index word s = Abort (AssertionFailed 88).
Proof.
  intros Hdone. unfold word_to_class_index, mbind, M_bind, get.
  by rewrite Hdone.
Qed.

Lemma word_to_class_index_ok word s p s' :
  word_to_class_index word s = Ok p s' → is_done s = true ∧ s' = s.
Proof.
  destruct (is_done s) eqn:Hdone.
  - destruct (is_done_built s Hdone) as (sg & Hsg & _).
    rewrite (word_to_class_index_eq word s sg Hdone Hsg).
    case_bool_decide; [done|]. by intros [= _ <-].
  - by rewrite word_to_class_index_not_done.
Qed.

(** X12: [word_to_class_index] fails exactly on its two assertions: on line
    88 when the object is not done, and then before anything is allocated, on
    line 94 when it is; the element it allocates is always valid when read
    and deleted.  A call that returns leaves the object as it was. *)
Theorem word_to_class_index_faults word s :
  (is_done s = false →
   word_to_class_index word s = Abort (AssertionFailed 88))
  ∧ (∀ e, word_to_class_index word s = Abort e →
          (is_done s = false ∧ e = AssertionFailed 88)
          ∨ (is_done s = true ∧ e = AssertionFailed 94))
  ∧ (∀ p s', word_to_class_index word s = Ok p s' →
             is_done s = true ∧ s' = s).
Proof.
  split; [apply word_to_class_index_not_done|].
  split; [|apply word_to_class_index_ok].
  intros e. destruct (is_done s) eqn:Hdone.
  - destruct (is_done_built s Hdone) as (sg & Hsg & _).
    rewrite (word_to_class_index_eq word s sg Hdone Hsg).
    case_bool_decide; [|done]. intros [= <-]. by right.
  - rewrite word_to_class_index_not_done by done. intros [= <-]. by left.
Qed.

(** X9: on one object the TRUE answers of [current_equals] form an
    equivalence on words: a word against itself is never answered FALSE, the
    order of the two words does not matter (for the answer, the object left
    and a fault alike), and TRUE for (w1, w2) and for (w2, w3) gives TRUE for
    (w1, w3). *)
Theorem current_equals_equivalence w1 w2 w3 s :
  (∀ s', current_equals w1 w1 s ≠ Ok FALSE s')
  ∧ current_equals w1 w2 s = current_equals w2 w1 s
  ∧ (∀ s1 s2, current_equals w1 w2 s = Ok TRUE s1 →
              current_equals w2 w3 s = Ok TRUE s2 →
              current_equals w1 w3 s = Ok TRUE s1).
Proof.
  rewrite !current_equals_eq.
  destruct (init s) as [[] s0|e]; [|done].
  destruct (_killed s0); [done|].
  destruct (is_confluent (_rws s0)); [|done].
  split_and!.
  - intros s'. by rewrite bool_decide_eq_true_2.
  - f_equal. repeat case_bool_decide; congruence.
  - intros s1 s2. repeat case_bool_decide; try done. congruence.
Qed.

Lemma current_equals_definite w1 w2 s r s1 :
  current_equals w1 w2 s = Ok r s1 → r ≠ UNKNOWN →
  init s = Ok tt s1 ∧ init s1 = Ok tt s1 ∧ _killed s1 = false
  ∧ is_confluent (_rws s1) = true
  ∧ r = if bool_decide (rewrite (_rws s1) (word_to_rws_word w1)
                        = rewrite (_rws s1) (word_to_rws_word w2))
        then TRUE else FALSE.
Proof.
  rewrite current_equals_eq.
  destruct (init s) as [[] s0|e] eqn:Hinit; [|done].
  destruct (_killed s0) eqn:Hk; [by intros [= <- _]|].
  destruct (is_confluent (_rws s0)) eqn:Hc; [|done].
  intros [= <- <-] _. split_and!; try done.
  apply init_built. by apply (init_not_killed_built s).
Qed.

(** X10: once [current_equals] has answered TRUE or FALSE, the object it
    leaves answers the same query in the same way and is not changed by
    it. *)
Theorem current_equals_stable w1 w2 s r s1 :
  current_equals w1 w2 s = Ok r s1 → r ≠ UNKNOWN →
  current_equals w1 w2 s1 = Ok r s1.
Proof.
  intros Heq Hr.
  destruct (current_equals_definite _ _ _ _ _ Heq Hr)
    as (_ & Hinit & Hk & Hc & ->).
  by rewrite current_equals_eq, Hinit, Hk, Hc.
Qed.

(** X11: where [current_equals] answers TRUE or FALSE, [current_less_than]
    on the same object passes its assertion for every pair of words, answers
    TRUE or FALSE and leaves the same object, on which it answers again in
    the same way. *)
Theorem current_less_than_after_equals w1 w2 w3 w4 s r s1 :
  current_equals w1 w2 s = Ok r s1 → r ≠ UNKNOWN →
  ∃ r', current_less_than w3 w4 s = Ok r' s1
        ∧ current_less_than w3 w4 s1 = Ok r' s1
        ∧ r' ≠ UNKNOWN.
Proof.
  intros Heq Hr.
  destruct (current_equals_definite _ _ _ _ _ Heq Hr)
    as (Hinit & Hinit1 & _ & Hc & _).
  rewrite !current_less_than_eq, Hinit, Hinit1, Hc.
  eexists. split; [done|]. split; [done|]. by case_match.
Qed.

(** *** The invariant *)

Lemma run_well_formed fuel s s' :
  well_formed s = true → run fuel s = Some (Ok tt s') →
  well_formed s' = true.
Proof.
  revert s. induction fuel as [|fuel IH]; intros s Hwf; [done|].
  cbn [run]. case_match.
  - destruct (run_steps LIMIT_MAX s) as [[] s1|e0] eqn:Hrun; [|done].
    apply IH. by apply (run_steps_well_formed LIMIT_MAX s).
  - intros ?; by simplify_eq.
Qed.

(** X8: every method of kbfp.cc, and cancellation from outside, keeps the
    invariant that an object with a semigroup has a confluent rewriting
    system. *)
Theorem well_formed_invariant s :
  well_formed s = true →
  well_formed (kill s) = true
  ∧ (∀ s', init s = Ok tt s' → well_formed s' = true)
  ∧ (∀ steps s', run_steps steps s = Ok tt s' → well_formed s' = true)
  ∧ (∀ fuel s', run fuel s = Some (Ok tt s') → well_formed s' = true)
  ∧ (∀ w p s', word_to_class_index w s = Ok p s' → well_formed s' = true)
  ∧ (∀ w1 w2 r s', current_equals w1 w2 s = Ok r s' →
                   well_formed s' = true)
  ∧ (∀ w1 w2 r s', current_less_than w1 w2 s = Ok r s' →
                   well_formed s' = true).
Proof.
  intros Hwf. split_and!.
  - done.
  - intros s'. by apply init_well_formed.
  - intros steps s'. by apply run_steps_well_formed.
  - intros fuel s'. by apply run_well_formed.
  - intros w p s' Hw. by apply word_to_class_index_ok in Hw as [_ ->].
  - intros w1 w2 r s'. rewrite current_equals_eq.
    destruct (init s) as [[] s0|e] eqn:Hinit; [|done].
    pose proof (init_well_formed s s0 Hwf Hinit).
    repeat case_match; try done; by intros [= _ <-].
  - intros w1 w2 r s'. rewrite current_less_than_eq.
    destruct (init s) as [[] s0|e] eqn:Hinit; [|done].
    pose proof (init_well_formed s s0 Hwf Hinit).
    repeat case_match; try done; by intros [= _ <-].
Qed.

(** *** [run()] and then a class index *)

Lemma run_ends fuel s s' :
  run fuel s = Some (Ok tt s') → _killed s' = true ∨ is_done s' = true.
Proof.
  revert s. induction fuel as [|fuel IH]; intros s; [done|].
  cbn [run]. destruct (_killed s) eqn:Hk; cbn [negb andb].
  { intros ?; simplify_eq. by left. }
  destruct (is_done s) eqn:Hd; cbn [negb].
  { intros ?; simplify_eq. by right. }
  destruct (run_steps LIMIT_MAX s) as [[] s1|e0]; [apply IH | done].
Qed.

(** X13: an object that [run()] returns with the signal down is done, so
    that [word_to_class_index] passes its precondition on it: for every word
    it returns a position and leaves the object as it is, or fails the
    assertion of line 94. *)
Theorem run_then_class_index fuel s s' word :
  run fuel s = Some (Ok tt s') → _killed s' = false →
  is_done s' = true
  ∧ ∃ sg, _semigroup s' = Some sg
          ∧ word_to_class_index word s'
            = if bool_decide (position sg (RWSE_of_word (_rws s') word)
                              = UNDEFINED)
              then Abort (AssertionFailed 94)
              else Ok (position sg (RWSE_of_word (_rws s') word)) s'.
Proof.
  intros Hrun Hk.
  assert (Hdone : is_done s' = true).
  { destruct (run_ends fuel s s' Hrun); [congruence | done]. }
  split; [done|].
  destruct (is_done_built s' Hdone) as (sg & Hsg & _).
  exists sg. split; [done|]. by apply word_to_class_index_eq.
Qed.

End more_facts.

End KBFP_facts.

(** * The small instance keeps the contracts *)

Lemma toy_grow_closed n limit sg :
  Toy.closed sg = true → Toy.grow n limit sg = sg.
Proof. intros Hc. destruct n as [|n]; [done|]. cbn. by rewrite Hc. Qed.

Lemma toy_grow_one sg :
  Toy.closed (Toy.grow_one sg) = true
  ∨ Toy.size (Toy.grow_one sg) = Toy.size sg + 1.
Proof.
  unfold Toy.grow_one. destruct (filter _ _) as [|y ys]; [by left|].
  right. unfold Toy.size. cbn. rewrite length_app. cbn. lia.
Qed.

Lemma toy_grow_limit n limit sg :
  limit ≤ Toy.size sg + N.of_nat n →
  limit ≤ Toy.size (Toy.grow n limit sg)
  ∨ Toy.closed (Toy.grow n limit sg) = true.
Proof.
  revert sg. induction n as [|n IH]; intros sg Hn.
  { left. cbn. lia. }
  cbn [Toy.grow]. destruct (Toy.closed sg) eqn:Hc; cbn [orb].
  { by right. }
  destruct (N.leb_spec limit (Toy.size sg)) as [Hle|Hlt].
  { by left. }
  destruct (toy_grow_one sg) as [Hclosed|Hsize].
  - right. by rewrite toy_grow_closed.
  - apply IH. lia.
Qed.

Lemma toy_index_of_word sg x i :
  Toy.index_of sg x = Some i →
  ∃ e, Toy.elems sg !! i = Some e ∧ rwse_word x = rwse_word e.
Proof.
  unfold Toy.index_of. intros Hfind.
  apply fmap_Some in Hfind as ([j e] & Hfind & ->).
  apply list_find_Some in Hfind as (He & Hsame & _).
  exists e. split; [done|]. unfold Toy.same_word in Hsame.
  by apply bool_decide_eq_true in Hsame.
Qed.

#[global] Instance toy_presentation_laws : PresentationLaws Toy.Cong.
Proof. by split. Qed.

#[global] Instance toy_signal_laws : SignalLaws Toy.Cong Toy.RWS word_t.
Proof. by split. Qed.

#[global] Instance toy_enumeration_laws :
  EnumerationLaws Toy.Semigroup Toy.RWS word_t.
Proof.
  split.
  - done.
  - intros sg k limit. cbn. destruct k; [done|]. intros _. cbn.
    apply toy_grow_limit. lia.
  - intros sg x y Heq Hdef. cbn in *.
    destruct (Toy.index_of sg x) as [i|] eqn:Hx; [|done].
    destruct (Toy.index_of sg y) as [j|] eqn:Hy; cbn in *; [|congruence].
    apply Nat2N.inj in Heq as ->.
    destruct (toy_index_of_word sg x j Hx) as (e & He & ->).
    destruct (toy_index_of_word sg y j Hy) as (e' & He' & ->).
    congruence.
Qed.

(** * The theorems at work on the small instance *)

(** [init] on a new object gives its heap back as it found it. *)
Lemma init_releases_generators_witness :
  init (Toy.fresh_state false) = Ok tt Toy.ready_state
  ∧ heap Toy.ready_state = heap (Toy.fresh_state false)
  ∧ leaked Toy.ready_state = leaked (Toy.fresh_state false).
Proof.
  assert (H : init (Toy.fresh_state false) = Ok tt Toy.ready_state)
    by (vm_compute; reflexivity).
  split; [exact H|].
  exact (init_releases_generators (Toy.fresh_state false) Toy.ready_state H).
Defined.

(** C5 as stated fails after a cancelled [init]: the second call is not a
    no-op, it feeds the three rules to the rewriting system once more. *)
Lemma init_not_idempotent_after_cancel :
  ¬ (∀ s1 s2 : Toy.State,
       init (Toy.fresh_state true) = Ok tt s1 → init s1 = Ok tt s2 → s2 = s1).
Proof.
  intros Hclaim.
  assert (H : Toy.cancelled_twice = Toy.cancelled_once).
  { apply Hclaim; vm_compute; reflexivity. }
  apply (f_equal (λ s, length (Toy.rules (_rws s)))) in H.
  vm_compute in H. discriminate H.
Qed.

(** On a new object the first call builds the semigroup and the second
    changes nothing; on an object cancelled during completion the second
    call feeds the three rules again. *)
Lemma init_idempotent_once_built_witness :
  init (Toy.fresh_state false) = Ok tt Toy.ready_state
  ∧ init Toy.ready_state = Ok tt Toy.ready_state
  ∧ init (Toy.fresh_state true) = Ok tt Toy.cancelled_once
  ∧ _semigroup Toy.cancelled_once = None
  ∧ init Toy.cancelled_once = Ok tt Toy.cancelled_twice
  ∧ take 5 (drop (length (trace Toy.cancelled_once))
                 (trace Toy.cancelled_twice))
    = [Call_init_relations;
       Call_add_rules (relations (_cong Toy.cancelled_twice));
       Call_add_rules (extra (_cong Toy.cancelled_twice));
       Call_REPORT "running Knuth-Bendix . . .";
       Call_knuth_bendix].
Proof.
  assert (H : init (Toy.fresh_state false) = Ok tt Toy.ready_state)
    by (vm_compute; reflexivity).
  assert (Hk : _killed Toy.ready_state = false) by reflexivity.
  assert (Hc : init (Toy.fresh_state true) = Ok tt Toy.cancelled_once)
    by (vm_compute; reflexivity).
  assert (Hnone : _semigroup Toy.cancelled_once = None) by reflexivity.
  assert (Hc2 : init Toy.cancelled_once = Ok tt Toy.cancelled_twice)
    by (vm_compute; reflexivity).
  destruct (init_idempotent_once_built (Toy.fresh_state false)
              Toy.ready_state H) as (_ & Hnoop & _).
  destruct (init_idempotent_once_built (Toy.fresh_state true)
              Toy.cancelled_once Hc) as (_ & _ & Hagain).
  destruct (Hagain Hnone) as (_ & Hrerun).
  destruct (Hrerun Toy.cancelled_twice Hc2) as (_ & _ & Htrace).
  split; [exact H|]. split; [exact (Hnoop Hk)|]. split; [exact Hc|].
  split; [exact Hnone|]. split; [exact Hc2 | exact Htrace].
Defined.

(** C1 as stated fails when the signal is raised after [init] has reached
    confluence: the answer is UNKNOWN although the object was not cancelled
    before confluence, and the normal forms of aa and a are equal. *)
Lemma current_equals_unknown_after_confluence :
  init (Toy.fresh_state false) = Ok tt Toy.ready_state
  ∧ _killed Toy.ready_state = false
  ∧ is_confluent (_rws Toy.ready_state) = true
  ∧ rewrite (_rws (kill Toy.ready_state)) (word_to_rws_word [0; 0])
    = rewrite (_rws (kill Toy.ready_state)) (word_to_rws_word [0])
  ∧ ¬ (∀ r s',
         current_equals [0; 0] [0] (kill Toy.ready_state) = Ok r s' →
         r = UNKNOWN
         ↔ _killed s' = true ∧ is_confluent (_rws s') = false).
Proof.
  split_and!; try (vm_compute; reflexivity).
  intros Hclaim.
  destruct (Hclaim UNKNOWN (kill Toy.ready_state)) as [Himp _].
  { vm_compute; reflexivity. }
  destruct (Himp eq_refl) as [_ Hconf]. vm_compute in Hconf. discriminate Hconf.
Qed.

Lemma current_equals_answer_witness :
  well_formed (Toy.fresh_state false) = true
  ∧ init (Toy.fresh_state false) = Ok tt Toy.ready_state
  ∧ ∃ r, current_equals [0; 0] [0] (Toy.fresh_state false)
         = Ok r Toy.ready_state
         ∧ (r = UNKNOWN ↔ _killed Toy.ready_state = true)
         ∧ (r = TRUE ↔ _killed Toy.ready_state = false
                        ∧ rewrite (_rws Toy.ready_state) (word_to_rws_word [0; 0])
                          = rewrite (_rws Toy.ready_state) (word_to_rws_word [0]))
         ∧ (r = FALSE ↔ _killed Toy.ready_state = false
                         ∧ rewrite (_rws Toy.ready_state) (word_to_rws_word [0; 0])
                           ≠ rewrite (_rws Toy.ready_state) (word_to_rws_word [0])).
Proof.
  assert (Hwf : well_formed (Toy.fresh_state false) = true) by reflexivity.
  assert (H : init (Toy.fresh_state false) = Ok tt Toy.ready_state)
    by (vm_compute; reflexivity).
  split; [exact Hwf|]. split; [exact H|].
  exact (current_equals_answer [0; 0] [0] (Toy.fresh_state false)
           Toy.ready_state Hwf H).
Defined.

(** On an object cancelled during completion, [current_less_than] fails its
    assertion where [current_equals] answers UNKNOWN. *)
Lemma current_less_than_answer_witness :
  init (Toy.fresh_state true) = Ok tt Toy.cancelled_once
  ∧ _killed Toy.cancelled_once = true
  ∧ is_confluent (_rws Toy.cancelled_once) = false
  ∧ current_less_than [0] [1] (Toy.fresh_state true)
    = Abort (AssertionFailed 114)
  ∧ current_equals [0] [1] (Toy.fresh_state true)
    = Ok UNKNOWN Toy.cancelled_once.
Proof.
  assert (H : init (Toy.fresh_state true) = Ok tt Toy.cancelled_once)
    by (vm_compute; reflexivity).
  assert (Hk : _killed Toy.cancelled_once = true) by reflexivity.
  assert (Hc : is_confluent (_rws Toy.cancelled_once) = false) by reflexivity.
  destruct (current_less_than_answer [0] [1] (Toy.fresh_state true)
              Toy.cancelled_once H) as (_ & Habort & Hunknown & _).
  split; [exact H|]. split; [exact Hk|]. split; [exact Hc|].
  split; [exact (Habort Hc) | exact (Hunknown Hk Hc)].
Defined.

Lemma run_steps_killed_witness :
  is_done (kill Toy.ready_state) = false
  ∧ init (kill Toy.ready_state) = Ok tt (kill Toy.ready_state)
  ∧ _killed (kill Toy.ready_state) = true
  ∧ run_steps 1 (kill Toy.ready_state)
    = Ok tt (log (Call_REPORT "killed") (kill Toy.ready_state))
  ∧ _semigroup (log (Call_REPORT "killed") (kill Toy.ready_state))
    = _semigroup (kill Toy.ready_state)
  ∧ trace (log (Call_REPORT "killed") (kill Toy.ready_state))
    = trace (kill Toy.ready_state) ++ [Call_REPORT "killed"].
Proof.
  assert (Hd : is_done (kill Toy.ready_state) = false) by reflexivity.
  assert (H : init (kill Toy.ready_state) = Ok tt (kill Toy.ready_state))
    by (vm_compute; reflexivity).
  assert (Hk : _killed (kill Toy.ready_state) = true) by reflexivity.
  split; [exact Hd|]. split; [exact H|]. split; [exact Hk|].
  exact (run_steps_killed 1 (kill Toy.ready_state) (kill Toy.ready_state)
           Hd H Hk).
Defined.

(** C2 as stated fails when the signal is raised during completion: the call
    was made on an object that was neither cancelled nor done, and it returns
    without a semigroup, without setting a batch size and without calling
    [enumerate]. *)
Lemma run_steps_cancelled_in_completion :
  _killed (Toy.fresh_state true) = false
  ∧ is_done (Toy.fresh_state true) = false
  ∧ run_steps 1 (Toy.fresh_state true)
    = Ok tt (log (Call_REPORT "killed") Toy.cancelled_once)
  ∧ ¬ (∀ s' : Toy.State,
         run_steps 1 (Toy.fresh_state true) = Ok tt s' →
         ∃ sg', _semigroup s' = Some sg'
                ∧ Call_set_batch_size 1 ∈ trace s'
                ∧ (1 ≤ current_size sg' ∨ fully_closed sg' = true)).
Proof.
  split_and!; try (vm_compute; reflexivity).
  intros Hclaim.
  destruct (Hclaim (log (Call_REPORT "killed") Toy.cancelled_once))
    as (sg' & Hsg & _).
  { vm_compute; reflexivity. }
  vm_compute in Hsg. discriminate Hsg.
Qed.

Lemma run_steps_progress_witness :
  is_done (Toy.fresh_state false) = false
  ∧ init (Toy.fresh_state false) = Ok tt Toy.ready_state
  ∧ _killed Toy.ready_state = false
  ∧ ∃ sg sg',
      _semigroup Toy.ready_state = Some sg
      ∧ run_steps 1 (Toy.fresh_state false)
        = Ok tt (enumerated 1 sg Toy.ready_state)
      ∧ _semigroup (enumerated 1 sg Toy.ready_state) = Some sg'
      ∧ sg' = (enumerate (set_batch_size sg 1) false
                         (size_t_add (current_size sg) 1)).1
      ∧ take 3 (drop (length (trace Toy.ready_state))
                     (trace (enumerated 1 sg Toy.ready_state)))
        = [Call_REPORT "running Froidure-Pin . . .";
           Call_set_batch_size 1;
           Call_enumerate (size_t_add (current_size sg) 1)]
      ∧ (_killed (enumerated 1 sg Toy.ready_state) = false →
         current_size sg + 1 < size_t_modulus →
         current_size sg + 1 ≤ current_size sg'
         ∨ fully_closed sg' = true).
Proof.
  assert (Hd : is_done (Toy.fresh_state false) = false) by reflexivity.
  assert (H : init (Toy.fresh_state false) = Ok tt Toy.ready_state)
    by (vm_compute; reflexivity).
  assert (Hk : _killed Toy.ready_state = false) by reflexivity.
  split; [exact Hd|]. split; [exact H|]. split; [exact Hk|].
  exact (run_steps_progress 1 (Toy.fresh_state false) Toy.ready_state Hd H Hk).
Defined.




Lemma init_cancelled_before_first_call_witness :
  _killed (kill (Toy.fresh_state false)) = true
  ∧ _semigroup (kill (Toy.fresh_state false)) = None
  ∧ presentation_ok (_cong (kill (Toy.fresh_state false))) = true
  ∧ ∃ s' s'',
      init (kill (Toy.fresh_state false)) = Ok tt s'
      ∧ _semigroup s' = None
      ∧ is_done s' = false
      ∧ heap s' = heap (kill (Toy.fresh_state false))
      ∧ trace s' = trace (kill (Toy.fresh_state false))
                   ++ [Call_init_relations;
                       Call_add_rules (relations (_cong s'));
                       Call_add_rules (extra (_cong s'));
                       Call_REPORT "running Knuth-Bendix . . .";
                       Call_knuth_bendix;
                       Call_REPORT "killed"]
      ∧ equals_each [([0; 0], [0]); ([0], [1])] s'
        = Ok (replicate 2 UNKNOWN) s''
      ∧ is_done s'' = false.
Proof.
  assert (Hk : _killed (kill (Toy.fresh_state false)) = true) by reflexivity.
  assert (Hsg : _semigroup (kill (Toy.fresh_state false)) = None)
    by reflexivity.
  assert (Hok : presentation_ok (_cong (kill (Toy.fresh_state false))) = true)
    by reflexivity.
  split; [exact Hk|]. split; [exact Hsg|]. split; [exact Hok|].
  exact (init_cancelled_before_first_call (kill (Toy.fresh_state false))
           [([0; 0], [0]); ([0], [1])] Hk Hsg Hok).
Defined.

(** [run()] on a new object ends after three tests of its condition, with the
    three elements enumerated. *)
Lemma run_refines_witness :
  run 3 (Toy.fresh_state false) = Some (Ok tt Toy.done_state)
  ∧ run_until_done_or_cancelled (Toy.fresh_state false) (Ok tt Toy.done_state)
  ∧ (_killed Toy.done_state = true ∨ is_done Toy.done_state = true).
Proof.
  assert (H : run 3 (Toy.fresh_state false) = Some (Ok tt Toy.done_state))
    by (vm_compute; reflexivity).
  destruct (run_refines (Toy.fresh_state false) (Ok tt Toy.done_state))
    as (Hiff & _ & Hend).
  assert (Hrun : run_until_done_or_cancelled (Toy.fresh_state false)
                   (Ok tt Toy.done_state)).
  { apply Hiff. exists 3%nat. exact H. }
  split; [exact H|]. split; [exact Hrun|].
  exact (Hend Toy.done_state eq_refl Hrun).
Defined.


(** * The further theorems at work on the small instances *)

(** The two generator cells at the addresses 0 and 1 are freed, which gives
    [ready_state] back. *)
Lemma really_delete_cont_exact_witness :
  Toy.two_cells.1 = [0; 1]
  ∧ really_delete_cont [0; 1] Toy.two_cells.2 = Ok tt Toy.ready_state
  ∧ NoDup [0; 1]
  ∧ (∀ k, heap Toy.ready_state !! k
          = if decide (k ∈ [0; 1]) then None else heap Toy.two_cells.2 !! k).
Proof.
  assert (H : really_delete_cont [0; 1] Toy.two_cells.2
              = Ok tt Toy.ready_state) by (vm_compute; reflexivity).
  destruct (proj1 (really_delete_cont_exact [0; 1] Toy.two_cells.2
                     Toy.ready_state) H) as (Hnd & _ & Hheap & _).
  split; [reflexivity|]. split; [exact H|]. split; [exact Hnd | exact Hheap].
Defined.

(** A parent semigroup without extra pairs: [init] fails on line 52. *)
Lemma init_faults_witness :
  init WithParent.no_extra_state = Abort (AssertionFailed 52)
  ∧ _semigroup WithParent.no_extra_state = None
  ∧ presentation_ok (_cong (fed WithParent.no_extra_state)) = false.
Proof.
  assert (H : init WithParent.no_extra_state = Abort (AssertionFailed 52))
    by (vm_compute; reflexivity).
  destruct (proj1 (init_faults WithParent.no_extra_state
                     (AssertionFailed 52)) H)
    as (Hsg & [[Hok _]|(_ & _ & _ & Hne)]).
  - split; [exact H|]. split; [exact Hsg | exact Hok].
  - discriminate Hne.
Defined.

Lemma init_builds_generators_witness :
  _semigroup (Toy.fresh_state false) = None
  ∧ init (Toy.fresh_state false) = Ok tt Toy.ready_state
  ∧ _killed Toy.ready_state = false
  ∧ _nrgens (_cong Toy.ready_state) < size_t_modulus
  ∧ _semigroup Toy.ready_state
    = Some (new_Semigroup
              ((λ j, RWSE_of_letter (_rws Toy.ready_state) (N.of_nat j))
                 <$> seq 0 (N.to_nat (_nrgens (_cong Toy.ready_state)))))
  ∧ is_confluent (_rws Toy.ready_state) = true.
Proof.
  assert (Hsg : _semigroup (Toy.fresh_state false) = None) by reflexivity.
  assert (H : init (Toy.fresh_state false) = Ok tt Toy.ready_state)
    by (vm_compute; reflexivity).
  assert (Hk : _killed Toy.ready_state = false) by reflexivity.
  assert (Hn : _nrgens (_cong Toy.ready_state) < size_t_modulus)
    by reflexivity.
  destruct (init_builds_generators (Toy.fresh_state false) Toy.ready_state
              Hsg H Hk Hn) as (_ & _ & Hc & Hgens & _).
  split; [exact Hsg|]. split; [exact H|]. split; [exact Hk|].
  split; [exact Hn|]. split; [exact Hgens | exact Hc].
Defined.

Lemma run_steps_ready_witness :
  (∃ sg, _semigroup Toy.ready_state = Some sg
         ∧ run_steps 1 Toy.ready_state
           = Ok tt (enumerated 1 sg Toy.ready_state)
         ∧ _rws (enumerated 1 sg Toy.ready_state) = _rws Toy.ready_state
         ∧ heap (enumerated 1 sg Toy.ready_state) = heap Toy.ready_state)
  ∧ _killed Toy.ready_state = false
  ∧ is_done Toy.ready_state = false.
Proof.
  assert (Hk : _killed Toy.ready_state = false) by reflexivity.
  assert (Hd : is_done Toy.ready_state = false) by reflexivity.
  split; [|split; [exact Hk | exact Hd]].
  eexists. split; [reflexivity|].
  destruct (run_steps_ready 1 Toy.ready_state _ eq_refl Hk Hd)
    as (Hrun & Hr & _ & Hh & _).
  split; [exact Hrun|]. split; [exact Hr | exact Hh].
Defined.

Lemma run_keeps_witness :
  run 3 Toy.ready_state = Some (Ok tt Toy.done_state)
  ∧ heap Toy.done_state = heap Toy.ready_state
  ∧ _rws Toy.done_state = _rws Toy.ready_state.
Proof.
  assert (H : run 3 Toy.ready_state = Some (Ok tt Toy.done_state))
    by (vm_compute; reflexivity).
  destruct (run_keeps 3 Toy.ready_state Toy.done_state H) as [Hh Hb].
  destruct (Hb (ex_intro _ _ eq_refl)) as (Hr & _ & _).
  split; [exact H|]. split; [exact Hh | exact Hr].
Defined.

Lemma run_faults_witness :
  run 1 WithParent.no_extra_state = Some (Abort (AssertionFailed 52))
  ∧ init WithParent.no_extra_state = Abort (AssertionFailed 52)
  ∧ _semigroup WithParent.no_extra_state = None.
Proof.
  assert (H : run 1 WithParent.no_extra_state
              = Some (Abort (AssertionFailed 52)))
    by (vm_compute; reflexivity).
  destruct (run_faults 1 WithParent.no_extra_state (AssertionFailed 52) H)
    as (_ & _ & Hsg & Hinit & _).
  split; [exact H|]. split; [exact Hinit | exact Hsg].
Defined.

(** [run_steps] on the object that [run()] has finished fails on line 71. *)
Lemma run_steps_faults_witness :
  is_done Toy.done_state = true
  ∧ run_steps 1 Toy.done_state = Abort (AssertionFailed 71).
Proof.
  assert (Hd : is_done Toy.done_state = true) by reflexivity.
  split; [exact Hd|].
  exact (proj2 (run_steps_faults 1 Toy.done_state (AssertionFailed 71))
           (or_introl (conj Hd eq_refl))).
Defined.

Lemma well_formed_invariant_witness :
  well_formed Toy.ready_state = true
  ∧ run 3 Toy.ready_state = Some (Ok tt Toy.done_state)
  ∧ well_formed Toy.done_state = true
  ∧ well_formed (kill Toy.ready_state) = true.
Proof.
  assert (Hwf : well_formed Toy.ready_state = true) by reflexivity.
  assert (H : run 3 Toy.ready_state = Some (Ok tt Toy.done_state))
    by (vm_compute; reflexivity).
  destruct (well_formed_invariant Toy.ready_state Hwf)
    as (Hkill & _ & _ & Hrun & _).
  split; [exact Hwf|]. split; [exact H|].
  split; [exact (Hrun 3%nat Toy.done_state H) | exact Hkill].
Defined.

(** ab against ba, ba against bab and ab against bab are all TRUE. *)
Lemma current_equals_equivalence_witness :
  current_equals [0; 1] [1; 0] Toy.ready_state = Ok TRUE Toy.ready_state
  ∧ current_equals [1; 0] [1; 0; 1] Toy.ready_state = Ok TRUE Toy.ready_state
  ∧ current_equals [0; 1] [1; 0; 1] Toy.ready_state = Ok TRUE Toy.ready_state
  ∧ current_equals [0; 1] [1; 0] Toy.ready_state
    = current_equals [1; 0] [0; 1] Toy.ready_state.
Proof.
  assert (H12 : current_equals [0; 1] [1; 0] Toy.ready_state
                = Ok TRUE Toy.ready_state) by (vm_compute; reflexivity).
  assert (H23 : current_equals [1; 0] [1; 0; 1] Toy.ready_state
                = Ok TRUE Toy.ready_state) by (vm_compute; reflexivity).
  destruct (current_equals_equivalence [0; 1] [1; 0] [1; 0; 1]
              Toy.ready_state) as (_ & Hsym & Htrans).
  split; [exact H12|]. split; [exact H23|].
  split; [exact (Htrans _ _ H12 H23) | exact Hsym].
Defined.

Lemma current_equals_stable_witness :
  current_equals [0; 0] [1] (Toy.fresh_state false)
  = Ok FALSE Toy.ready_state
  ∧ FALSE ≠ UNKNOWN
  ∧ current_equals [0; 0] [1] Toy.ready_state = Ok FALSE Toy.ready_state.
Proof.
  assert (H : current_equals [0; 0] [1] (Toy.fresh_state false)
              = Ok FALSE Toy.ready_state) by (vm_compute; reflexivity).
  assert (Hr : FALSE ≠ UNKNOWN) by discriminate.
  split; [exact H|]. split; [exact Hr|].
  exact (current_equals_stable [0; 0] [1] (Toy.fresh_state false) FALSE
           Toy.ready_state H Hr).
Defined.

Lemma current_less_than_after_equals_witness :
  current_equals [0; 0] [1] (Toy.fresh_state false)
  = Ok FALSE Toy.ready_state
  ∧ FALSE ≠ UNKNOWN
  ∧ ∃ r', current_less_than [0] [1; 0] (Toy.fresh_state false)
          = Ok r' Toy.ready_state
          ∧ current_less_than [0] [1; 0] Toy.ready_state
            = Ok r' Toy.ready_state
          ∧ r' ≠ UNKNOWN.
Proof.
  assert (H : current_equals [0; 0] [1] (Toy.fresh_state false)
              = Ok FALSE Toy.ready_state) by (vm_compute; reflexivity).
  assert (Hr : FALSE ≠ UNKNOWN) by discriminate.
  split; [exact H|]. split; [exact Hr|].
  exact (current_less_than_after_equals [0; 0] [1] [0] [1; 0]
           (Toy.fresh_state false) FALSE Toy.ready_state H Hr).
Defined.

(** Before [run()], the object is not done and a class index is refused. *)
Lemma word_to_class_index_faults_witness :
  is_done Toy.ready_state = false
  ∧ word_to_class_index [0] Toy.ready_state = Abort (AssertionFailed 88).
Proof.
  assert (Hd : is_done Toy.ready_state = false) by reflexivity.
  split; [exact Hd|].
  exact (proj1 (word_to_class_index_faults [0] Toy.ready_state) Hd).
Defined.

Lemma run_then_class_index_witness :
  run 3 (Toy.fresh_state false) = Some (Ok tt Toy.done_state)
  ∧ _killed Toy.done_state = false
  ∧ is_done Toy.done_state = true
  ∧ word_to_class_index [1; 0] Toy.done_state = Ok 2 Toy.done_state.
Proof.
  assert (H : run 3 (Toy.fresh_state false) = Some (Ok tt Toy.done_state))
    by (vm_compute; reflexivity).
  assert (Hk : _killed Toy.done_state = false) by reflexivity.
  destruct (run_then_class_index 3 (Toy.fresh_state false) Toy.done_state
              [1; 0] H Hk) as (Hd & sg & Hsg & Hidx).
  split; [exact H|]. split; [exact Hk|]. split; [exact Hd|].
  vm_compute. reflexivity.
Defined.
